(** * Corrade::Cpu -- tag encoding, overload priority and runtime dispatch

    A shallow embedding of [src/Corrade/Cpu.h].  Template metaprograms
    ([BitIndex], [BitCount], [IsTagConversionAllowed], [priority]) become
    functions on [Z]; [unsigned int] values are integers in [0, 2^32) with
    the wrap-around of [~] and [-] written out; a [static_assert] that fails
    is the [None] of an [option]; preprocessor configuration
    ([CORRADE_TARGET_*]) is an explicit record the definitions take as an
    argument. *)

From Stdlib Require Import ZArith List Bool Lia.
From Equations Require Import Equations.
Import ListNotations.
Local Open Scope Z_scope.

(** ** Machine integers *)

(** [unsigned int] is 32 bits wide on every target the header supports. *)
Definition uint_range (x : Z) : Prop := 0 <= x < 2 ^ 32.
Definition ushort_range (x : Z) : Prop := 0 <= x < 2 ^ 16.

Definition wrap32 (x : Z) : Z := x mod 2 ^ 32.

(** [~x] and [x - y] on [unsigned int]. *)
Definition unot (x : Z) : Z := wrap32 (Z.lnot x).
Definition usub (x y : Z) : Z := wrap32 (x - y).

(** Contextual conversion of an integer to [bool]. *)
Definition truthy (x : Z) : bool := negb (x =? 0).

(** ** Targets and tags *)

(** Which of [CORRADE_TARGET_X86], [CORRADE_TARGET_ARM],
    [CORRADE_TARGET_WASM] is defined ([Other] when none is). *)
Inductive Target : Type := X86 | ARM | WASM | Other.

(** The tag constants of the [Cpu] namespace.  A tag type [FooT] and its
    only value [Foo] are the same thing here. *)
Inductive Tag : Type :=
| Scalar
| Sse2 | Sse3 | Ssse3 | Sse41 | Sse42 | Avx | Avx2 | Avx512f
| Popcnt | Lzcnt | AvxF16c | AvxFma
| Neon | NeonFma | NeonFp16
| Simd128.

Definition Tag_eqb (a b : Tag) : bool :=
  match a, b with
  | Scalar, Scalar | Sse2, Sse2 | Sse3, Sse3 | Ssse3, Ssse3
  | Sse41, Sse41 | Sse42, Sse42 | Avx, Avx | Avx2, Avx2
  | Avx512f, Avx512f | Popcnt, Popcnt | Lzcnt, Lzcnt
  | AvxF16c, AvxF16c | AvxFma, AvxFma | Neon, Neon
  | NeonFma, NeonFma | NeonFp16, NeonFp16 | Simd128, Simd128 => true
  | _, _ => false
  end.

(** [Implementation::ExtraTagBitOffset]. *)
Definition ExtraTagBitOffset : Z := 16.

(** [TypeTraits<T>::Index]. *)
Definition Index (T : Tag) : Z :=
  match T with
  | Scalar => 0
  | Sse2 => Z.shiftl 1 0
  | Sse3 => Z.shiftl 1 1
  | Ssse3 => Z.shiftl 1 2
  | Sse41 => Z.shiftl 1 3
  | Sse42 => Z.shiftl 1 4
  | Avx => Z.shiftl 1 5
  | Avx2 => Z.shiftl 1 6
  | Avx512f => Z.shiftl 1 7
  | Popcnt => Z.shiftl 1 (0 + ExtraTagBitOffset)
  | Lzcnt => Z.shiftl 1 (1 + ExtraTagBitOffset)
  | AvxF16c => Z.shiftl 1 (2 + ExtraTagBitOffset)
  | AvxFma => Z.shiftl 1 (3 + ExtraTagBitOffset)
  | Neon => Z.shiftl 1 0
  | NeonFma => Z.shiftl 1 1
  | NeonFp16 => Z.shiftl 1 2
  | Simd128 => Z.shiftl 1 0
  end.

(** The struct each tag type derives from ([struct Sse3T: Sse2T]); the extra
    tag types and [ScalarT] have no base class. *)
Definition base_class (T : Tag) : option Tag :=
  match T with
  | Scalar => None
  | Sse2 => Some Scalar
  | Sse3 => Some Sse2
  | Ssse3 => Some Sse3
  | Sse41 => Some Ssse3
  | Sse42 => Some Sse41
  | Avx => Some Sse42
  | Avx2 => Some Avx
  | Avx512f => Some Avx2
  | Popcnt | Lzcnt | AvxF16c | AvxFma => None
  | Neon => Some Scalar
  | NeonFma => Some Neon
  | NeonFp16 => Some NeonFma
  | Simd128 => Some Scalar
  end.

(** Base tags of a target, in declaration order (lowest tier first), and its
    extra tags.  [Scalar] exists everywhere. *)
Definition base_tags (t : Target) : list Tag :=
  match t with
  | X86 => [Sse2; Sse3; Ssse3; Sse41; Sse42; Avx; Avx2; Avx512f]
  | ARM => [Neon; NeonFma; NeonFp16]
  | WASM => [Simd128]
  | Other => []
  end.

Definition extra_tags (t : Target) : list Tag :=
  match t with
  | X86 => [Popcnt; Lzcnt; AvxF16c; AvxFma]
  | _ => []
  end.

Definition target_tags (t : Target) : list Tag :=
  Scalar :: base_tags t ++ extra_tags t.

(** ** [Implementation]: masks and compile-time helpers *)

Definition BaseTagMask : Z := Z.shiftl 1 ExtraTagBitOffset - 1.
Definition ExtraTagMask : Z := Z.land 0xffffffff (unot BaseTagMask).

Definition ExtraTagCount (t : Target) : Z :=
  match t with
  | X86 => 4
  | _ => 0
  end.

(** [BitIndex<A>::Value]: the primary template recurses on [A >> 1], the
    specialisation [BitIndex<0>] ends the recursion.  [A] is an
    [unsigned short], so it is never negative; the first clause is the
    specialisation. *)
Equations? BitIndex (A : Z) : Z by wf (Z.to_nat A) lt :=
  BitIndex A with Z_le_gt_dec A 0 => {
    | left _ := 0;
    | right _ := 1 + BitIndex (Z.shiftr A 1) }.
Proof.
  rewrite Z.shiftr_div_pow2 by lia.
  change (2 ^ 1) with 2.
  assert (A / 2 < A) by (apply Z.div_lt; lia).
  assert (0 <= A / 2) by (apply Z.div_pos; lia).
  lia.
Qed.

(** [BitCount<A>::Value], enumerator by enumerator. *)
Section BitCount.
Variable A : Z.

Definition Bits1 : Z := 0x5555.
Definition Bits2 : Z := 0x3333.
Definition Bits4 : Z := 0x0f0f.
Definition Bits8 : Z := 0x00ff.

Definition BitCount_B0 : Z := Z.land (Z.shiftr A 0) Bits1.
Definition BitCount_B1 : Z := Z.land (Z.shiftr A 1) Bits1.
Definition BitCount_C : Z := BitCount_B0 + BitCount_B1.
Definition BitCount_D0 : Z := Z.land (Z.shiftr BitCount_C 0) Bits2.
Definition BitCount_D2 : Z := Z.land (Z.shiftr BitCount_C 2) Bits2.
Definition BitCount_E : Z := BitCount_D0 + BitCount_D2.
Definition BitCount_F0 : Z := Z.land (Z.shiftr BitCount_E 0) Bits4.
Definition BitCount_F4 : Z := Z.land (Z.shiftr BitCount_E 4) Bits4.
Definition BitCount_G : Z := BitCount_F0 + BitCount_F4.
Definition BitCount_H0 : Z := Z.land (Z.shiftr BitCount_G 0) Bits8.
Definition BitCount_H8 : Z := Z.land (Z.shiftr BitCount_G 8) Bits8.
Definition BitCount : Z := BitCount_H0 + BitCount_H8.
End BitCount.

(** The condition both [static_assert]s and both conversion predicates use:
    [!((value & BaseTagMask) & ((value & BaseTagMask) - 1))]. *)
Definition at_most_one_base (value : Z) : bool :=
  negb (truthy (Z.land (Z.land value BaseTagMask)
                       (usub (Z.land value BaseTagMask) 1))).

(** The second [static_assert] of [priority(Tags<value>)] and the one of
    [Features(T)]: the extra bits, shifted down, are below
    [1 << ExtraTagCount]. *)
Definition extra_in_bounds (t : Target) (value : Z) : bool :=
  Z.shiftr (Z.land value ExtraTagMask) ExtraTagBitOffset
    <? Z.shiftl 1 (ExtraTagCount t).

(** [priority(Tags<value>)]: the index [i] of the returned [Priority<i>], or
    [None] when a [static_assert] fails the build. *)
Definition priority (t : Target) (value : Z) : option Z :=
  if at_most_one_base value then
    if extra_in_bounds t value then
      Some (BitIndex (Z.land value BaseTagMask) * (ExtraTagCount t + 1)
            + BitCount (Z.shiftr (Z.land value ExtraTagMask) ExtraTagBitOffset))
    else None
  else None.

(** [priority(T)] for a single tag [T]. *)
Definition priority_tag (t : Target) (T : Tag) : Z :=
  if truthy (Z.land (Index T) ExtraTagMask) then 1
  else BitIndex (Z.land (Index T) BaseTagMask) * (ExtraTagCount t + 1).

(** [IsTagConversionAllowed<value, otherValue>::Value]: whether a
    [Tags<value>] may be constructed from a [Tags<otherValue>]. *)
Definition IsTagConversionAllowed (value otherValue : Z) : bool :=
  at_most_one_base value &&
  at_most_one_base otherValue &&
  (Z.land otherValue BaseTagMask >=? Z.land value BaseTagMask) &&
  (Z.land (Z.land otherValue value) ExtraTagMask =? Z.land value ExtraTagMask).

(** [IsSingleTagConversionAllowed<value, otherIndex>::Value]: whether a
    [Tags<value>] may be constructed from the single tag of index
    [otherIndex]. *)
Definition IsSingleTagConversionAllowed (value otherIndex : Z) : bool :=
  at_most_one_base value &&
  (Z.land otherIndex BaseTagMask >=? Z.land value BaseTagMask) &&
  (Z.land (Z.land otherIndex value) ExtraTagMask =? Z.land value ExtraTagMask).

(** The operators of [Tags<value>]: each returns the [Tags] of the combined
    value and checks nothing. *)
Definition Tags_or (value otherValue : Z) : Z := Z.lor value otherValue.
Definition Tags_and (value otherValue : Z) : Z := Z.land value otherValue.
Definition Tags_xor (value otherValue : Z) : Z := Z.lxor value otherValue.
Definition Tags_not (value : Z) : Z := unot value.

(** What [CORRADE_CPU_DECLARE] and [CORRADE_CPU_SELECT] are given: a single
    tag or a [Tags<value>] combination. *)
Inductive TagArg : Type :=
| OneTag (T : Tag)
| Combined (value : Z).

(** [Implementation::tags(...)]. *)
Definition tags (a : TagArg) : Z :=
  match a with
  | OneTag T => Index T
  | Combined value => value
  end.

(** The call [Implementation::priority(...)], as in [CORRADE_CPU_SELECT],
    whichever overload applies. *)
Definition priority_of (t : Target) (a : TagArg) : option Z :=
  match a with
  | OneTag T => Some (priority_tag t T)
  | Combined value => priority t value
  end.

(** ** [Features] *)

Record Features : Type := mkFeatures { _data : Z }.

(** [Features(T)], [Features(Tags<value>)] and [features<T>()]. *)
Definition Features_of_tag (T : Tag) : Features := mkFeatures (Index T).
Definition Features_of_tags (value : Z) : Features := mkFeatures value.

Definition Features_eq (a other : Features) : bool := _data a =? _data other.
Definition Features_ne (a other : Features) : bool :=
  negb (_data a =? _data other).
(** [operator>=]: [other] is a subset of [a]. *)
Definition Features_ge (a other : Features) : bool :=
  Z.land (_data a) (_data other) =? _data other.
(** [operator<=]: [other] is a superset of [a]. *)
Definition Features_le (a other : Features) : bool :=
  Z.land (_data a) (_data other) =? _data a.
Definition Features_or (a other : Features) : Features :=
  mkFeatures (Z.lor (_data a) (_data other)).
Definition Features_and (a other : Features) : Features :=
  mkFeatures (Z.land (_data a) (_data other)).
Definition Features_xor (a other : Features) : Features :=
  mkFeatures (Z.lxor (_data a) (_data other)).
Definition Features_not (a : Features) : Features :=
  mkFeatures (unot (_data a)).
Definition Features_bool (a : Features) : bool := truthy (_data a).

(** ** Build configuration, [compiledFeatures()] and [runtimeFeatures()] *)

(** The preprocessor symbols the two functions look at. *)
Record BuildConfig : Type := mkBuildConfig {
  target : Target;
  CORRADE_TARGET_SSE2 : bool;
  CORRADE_TARGET_SSE3 : bool;
  CORRADE_TARGET_SSSE3 : bool;
  CORRADE_TARGET_SSE41 : bool;
  CORRADE_TARGET_SSE42 : bool;
  CORRADE_TARGET_POPCNT : bool;
  CORRADE_TARGET_LZCNT : bool;
  CORRADE_TARGET_AVX : bool;
  CORRADE_TARGET_AVX_FMA : bool;
  CORRADE_TARGET_AVX_F16C : bool;
  CORRADE_TARGET_AVX2 : bool;
  CORRADE_TARGET_NEON : bool;
  CORRADE_TARGET_NEON_FMA : bool;
  CORRADE_TARGET_NEON_FP16 : bool;
  CORRADE_TARGET_SIMD128 : bool;
  CORRADE_TARGET_MSVC : bool;
  CORRADE_TARGET_GCC : bool;
  CORRADE_TARGET_APPLE : bool;
  CORRADE_TARGET_ANDROID : bool;
  __linux__ : bool;
  __ANDROID_API__ : Z
}.

(** [#ifdef M  index| #endif]: the operand is there only when [M] is
    defined; a missing operand leaves the union as it is. *)
Definition ifdef (M : bool) (index : Z) : Z := if M then index else 0.

(** [compiledFeatures()]: the union of the operands of the target.  On x86
    the operands end with the one of [CORRADE_TARGET_AVX2]; the function has
    none for [Avx512f]. *)
Definition compiledFeatures (c : BuildConfig) : Features :=
  mkFeatures
    match target c with
    | X86 =>
        Z.lor (ifdef (CORRADE_TARGET_SSE2 c) (Index Sse2))
        (Z.lor (ifdef (CORRADE_TARGET_SSE3 c) (Index Sse3))
        (Z.lor (ifdef (CORRADE_TARGET_SSSE3 c) (Index Ssse3))
        (Z.lor (ifdef (CORRADE_TARGET_SSE41 c) (Index Sse41))
        (Z.lor (ifdef (CORRADE_TARGET_SSE42 c) (Index Sse42))
        (Z.lor (ifdef (CORRADE_TARGET_POPCNT c) (Index Popcnt))
        (Z.lor (ifdef (CORRADE_TARGET_LZCNT c) (Index Lzcnt))
        (Z.lor (ifdef (CORRADE_TARGET_AVX c) (Index Avx))
        (Z.lor (ifdef (CORRADE_TARGET_AVX_FMA c) (Index AvxFma))
        (Z.lor (ifdef (CORRADE_TARGET_AVX_F16C c) (Index AvxF16c))
        (Z.lor (ifdef (CORRADE_TARGET_AVX2 c) (Index Avx2))
         0))))))))))
    | ARM =>
        Z.lor (ifdef (CORRADE_TARGET_NEON c) (Index Neon))
        (Z.lor (ifdef (CORRADE_TARGET_NEON_FMA c) (Index NeonFma))
        (Z.lor (ifdef (CORRADE_TARGET_NEON_FP16 c) (Index NeonFp16))
         0))
    | WASM =>
        Z.lor (ifdef (CORRADE_TARGET_SIMD128 c) (Index Simd128)) 0
    | Other => 0
    end.

(** The condition of the [#if] in front of [runtimeFeatures()]: when it
    holds the function is only declared here and probes the machine (CPUID,
    [getauxval()] or [sysctlbyname()]) in its out-of-line definition. *)
Definition runtime_detection_compiled_in (c : BuildConfig) : bool :=
  match target c with
  | X86 => CORRADE_TARGET_MSVC c || CORRADE_TARGET_GCC c
  | ARM =>
      (__linux__ c &&
       negb (CORRADE_TARGET_ANDROID c && (__ANDROID_API__ c <? 18)))
      || CORRADE_TARGET_APPLE c
  | _ => false
  end.

(** [runtimeFeatures()].  [probed] stands for what the out-of-line
    definition returns on the running machine; the inline definition of the
    [#else] branch ignores it. *)
Definition runtimeFeatures (c : BuildConfig) (probed : Features) : Features :=
  if runtime_detection_compiled_in c then probed else compiledFeatures c.

(** ** Overloads taking a plain tag, and [CORRADE_CPU_DISPATCHER_BASE] *)

(** A tag type followed by its base classes, nearest first.  No hierarchy of
    the header is deeper than the eight classes under [Avx512fT]. *)
Fixpoint upcasts_upto (depth : nat) (T : Tag) : list Tag :=
  T :: match depth, base_class T with
       | S d, Some B => upcasts_upto d B
       | _, _ => []
       end.

Definition upcasts (T : Tag) : list Tag := upcasts_upto 8 T.

Definition declares (declared : list Tag) (T : Tag) : bool :=
  existsb (Tag_eqb T) declared.

(** The call [function(tag)] against the overloads [function(FooT)] for the
    [Foo] in [declared]: an overload is viable when its parameter type is the
    argument's type or one of its base classes, and the conversion to the
    nearest class wins.  [None]: no overload is viable and the call does not
    compile. *)
Definition call_with_tag (declared : list Tag) (T : Tag) : option Tag :=
  find (declares declared) (upcasts T).

(** The body every [CORRADE_CPU_DISPATCHER_BASE] has: an
    [if(features & Tag) return function(Tag);] per candidate and the
    [Scalar] call at the end. *)
Fixpoint scan_base {R : Type} (function : Tag -> R) (features : Features)
    (candidates : list Tag) : R :=
  match candidates with
  | [] => function Scalar
  | B :: rest =>
      if Features_bool (Features_and features (Features_of_tag B))
      then function B
      else scan_base function features rest
  end.

(** [type function(Cpu::Features features)] as [CORRADE_CPU_DISPATCHER_BASE]
    defines it on each target. *)
Definition CORRADE_CPU_DISPATCHER_BASE {R : Type} (t : Target)
    (function : Tag -> R) (features : Features) : R :=
  match t with
  | X86 =>
      if Features_bool (Features_and features (Features_of_tag Avx512f))
      then function Avx512f
      else if Features_bool (Features_and features (Features_of_tag Avx2))
      then function Avx2
      else if Features_bool (Features_and features (Features_of_tag Avx))
      then function Avx
      else if Features_bool (Features_and features (Features_of_tag Sse42))
      then function Sse42
      else if Features_bool (Features_and features (Features_of_tag Sse41))
      then function Sse41
      else if Features_bool (Features_and features (Features_of_tag Ssse3))
      then function Ssse3
      else if Features_bool (Features_and features (Features_of_tag Sse3))
      then function Sse3
      else if Features_bool (Features_and features (Features_of_tag Sse2))
      then function Sse2
      else function Scalar
  | ARM =>
      if Features_bool (Features_and features (Features_of_tag NeonFp16))
      then function NeonFp16
      else if Features_bool (Features_and features (Features_of_tag NeonFma))
      then function NeonFma
      else if Features_bool (Features_and features (Features_of_tag Neon))
      then function Neon
      else function Scalar
  | WASM =>
      if Features_bool (Features_and features (Features_of_tag Simd128))
      then function Simd128
      else function Scalar
  | Other => function Scalar
  end.

(** The variant a [CORRADE_CPU_DISPATCHER_BASE] dispatcher returns for
    [features] when the overloads are the ones in [declared]. *)
Definition dispatch_base (t : Target) (declared : list Tag)
    (features : Features) : option Tag :=
  CORRADE_CPU_DISPATCHER_BASE t (call_with_tag declared) features.

(** ** Overloads declared with [CORRADE_CPU_DECLARE], and
       [CORRADE_CPU_DISPATCHER] *)

(** The index [i] of the return type [Priority<i>] of
    [priority(Tags<value>)].  Naming the type does not instantiate the body
    of [priority], where the two [static_assert]s are. *)
Definition priority_type (t : Target) (value : Z) : Z :=
  BitIndex (Z.land value BaseTagMask) * (ExtraTagCount t + 1)
  + BitCount (Z.shiftr (Z.land value ExtraTagMask) ExtraTagBitOffset).

(** [decltype(Implementation::priority(...))], whichever overload
    applies. *)
Definition declared_priority (t : Target) (a : TagArg) : Z :=
  match a with
  | OneTag T => priority_tag t T
  | Combined value => priority_type t value
  end.

(** [CORRADE_CPU_DECLARE(tag)]: the two parameter types [Tags<value>] and
    [Priority<i>], as the pair [(value, i)].  The macro has [tags] and
    [priority] inside [decltype] only, so it accepts every argument and
    takes [i] from the return type. *)
Definition CORRADE_CPU_DECLARE (t : Target) (a : TagArg) : Z * Z :=
  (tags a, declared_priority t a).

(** Whether the first argument of [CORRADE_CPU_SELECT(a)] converts to the
    parameter type [Tags<value>]: the same type, or one of the two converting
    constructors of [Tags]. *)
Definition converts_to (a : TagArg) (value : Z) : bool :=
  match a with
  | OneTag T => IsSingleTagConversionAllowed value (Index T)
  | Combined otherValue =>
      (otherValue =? value) || IsTagConversionAllowed value otherValue
  end.

(** An overload [(value, i)] is viable for the arguments
    [a, Priority<P>]: [a] converts to [Tags<value>], and [Priority<i>] is
    [Priority<P>] or one of its base classes, which is [i <= P]. *)
Definition viable (a : TagArg) (P : Z) (overload : Z * Z) : bool :=
  converts_to a (fst overload) && (snd overload <=? P).

(** Rank of the conversion of the first argument: an identity conversion is
    better than one through a converting constructor, and two conversions
    through constructors are not ordered. *)
Definition exactness (a : TagArg) (overload : Z * Z) : Z :=
  match a with
  | OneTag _ => 0
  | Combined otherValue => if otherValue =? fst overload then 1 else 0
  end.

(** [f] is a better candidate than [g]: not worse on either argument and
    better on one.  On the second argument the conversion to the nearer base
    class [Priority<i>], the larger [i], is the better one. *)
Definition better (a : TagArg) (f g : Z * Z) : bool :=
  (exactness a g <=? exactness a f) && (snd g <=? snd f) &&
  ((exactness a g <? exactness a f) || (snd g <? snd f)).

(** The call [function(CORRADE_CPU_SELECT(a))] against the overloads in
    [declared]: the viable overload that is better than every other viable
    one; [None] when [priority(a)] is rejected, no overload is viable or the
    call is ambiguous. *)
Definition call_with_select (t : Target) (declared : list (Z * Z))
    (a : TagArg) : option (Z * Z) :=
  match priority_of t a with
  | None => None
  | Some P =>
      let candidates := filter (viable a P) declared in
      find (fun f =>
              forallb (fun g => better a f g
                                || ((fst f =? fst g) && (snd f =? snd g)))
                      candidates)
           candidates
  end.

(** The cascade of [_CORRADE_CPU_DISPATCHER_IMPLEMENTATION(function, extra)]
    with [extra] being [|Tags<value>{Init}]. *)
Fixpoint scan_extra {R : Type} (function : TagArg -> option R)
    (features : Features) (value : Z) (candidates : list Tag) : option R :=
  match candidates with
  | [] => function (Combined (Z.lor (Index Scalar) value))
  | B :: rest =>
      if Features_ge features (Features_of_tags (Z.lor (Index B) value))
      then function (Combined (Z.lor (Index B) value))
      else scan_extra function features value rest
  end.

Definition _CORRADE_CPU_DISPATCHER_IMPLEMENTATION {R : Type} (t : Target)
    (function : TagArg -> option R) (features : Features) (value : Z)
    : option R :=
  match t with
  | X86 =>
      scan_extra function features value
        [Avx512f; Avx2; Avx; Sse42; Sse41; Ssse3; Sse3; Sse2]
  | ARM => scan_extra function features value [NeonFp16; NeonFma; Neon]
  | WASM => scan_extra function features value [Simd128]
  | Other => scan_extra function features value []
  end.

(** [function ## Internal(features, extra, first, next...)] of
    [_CORRADE_CPU_DISPATCHERn]; the [static_assert] on [First] gives [None]
    when a listed tag has a base bit. *)
Fixpoint Internal {R : Type} (t : Target) (function : TagArg -> option R)
    (features : Features) (extra : Z) (listed : list Tag) : option R :=
  match listed with
  | [] => _CORRADE_CPU_DISPATCHER_IMPLEMENTATION t function features extra
  | first :: next =>
      if truthy (Z.land (tags (OneTag first)) BaseTagMask) then None
      else if Features_bool (Features_and features (Features_of_tag first))
      then Internal t function features (Tags_or extra (Index first)) next
      else Internal t function features extra next
  end.

(** [type function(Cpu::Features features)] as
    [CORRADE_CPU_DISPATCHER(type, function, listed...)] defines it for one or
    more listed extra tags. *)
Definition _CORRADE_CPU_DISPATCHERn {R : Type} (t : Target)
    (function : TagArg -> option R) (listed : list Tag)
    (features : Features) : option R :=
  Internal t function features 0 listed.

(** The overloads declared with [CORRADE_CPU_DECLARE] of the arguments in
    [variants]. *)
Definition declare_all (t : Target) (variants : list TagArg)
    : list (Z * Z) :=
  map (CORRADE_CPU_DECLARE t) variants.

(** The variant a [CORRADE_CPU_DISPATCHER] dispatcher returns for
    [features], the overloads being the ones of [variants]. *)
Definition dispatch (t : Target) (variants : list TagArg)
    (listed : list Tag) (features : Features) : option (Z * Z) :=
  _CORRADE_CPU_DISPATCHERn t (call_with_select t (declare_all t variants))
    listed features.

(** Every combination of the listed extra tags that [Internal] can call the
    cascade with: each one is a template instantiation the compiler has to
    build, taken at run time or not. *)
Fixpoint instantiations (extra : Z) (listed : list Tag) : list Z :=
  match listed with
  | [] => [extra]
  | first :: next =>
      instantiations (Tags_or extra (Index first)) next
      ++ instantiations extra next
  end.

(** The dispatcher builds: the listed tags pass the [static_assert] and
    each call of each instantiated cascade resolves to an overload. *)
Definition dispatcher_builds (t : Target) (variants : list TagArg)
    (listed : list Tag) : bool :=
  forallb (fun first => negb (truthy (Z.land (tags (OneTag first)) BaseTagMask)))
          listed &&
  forallb (fun value =>
             forallb (fun B =>
                        match call_with_select t (declare_all t variants)
                                (Combined (Z.lor (Index B) value)) with
                        | Some _ => true
                        | None => false
                        end)
                     (Scalar :: base_tags t))
          (instantiations 0 listed).

(** ** Vocabulary of the specification *)

(** The positions, counted from [from], of the bits set in [value] among
    [count] consecutive ones. *)
Fixpoint set_bits (value from : Z) (count : nat) : list Z :=
  match count with
  | O => []
  | S k =>
      (if Z.testbit value from then [from] else [])
      ++ set_bits value (from + 1) k
  end.

(** Base bits are bits 0 to 15, extra bits are bits 16 to 31. *)
Definition base_bits (value : Z) : list Z := set_bits value 0 16.
Definition extra_bits (value : Z) : list Z := set_bits value 16 16.

(** Population count of the low 16 bits. *)
Definition popcount16 (A : Z) : Z := Z.of_nat (length (set_bits A 0 16)).

(** Hierarchy position of the base bit: 0 for [Scalar], [i + 1] for the base
    tag that occupies bit [i]. *)
Definition baseRank (value : Z) : Z :=
  match base_bits value with
  | [] => 0
  | i :: _ => i + 1
  end.

(** Population count of the extra bits. *)
Definition extraRank (value : Z) : Z := Z.of_nat (length (extra_bits value)).

Definition at_most_one_base_bit (value : Z) : Prop :=
  (length (base_bits value) <= 1)%nat.

(** The extra bits of [value] lie in the [ExtraTagCount] positions from
    [ExtraTagBitOffset] on: none of the bits above them is set. *)
Definition extra_within_range (t : Target) (value : Z) : Prop :=
  set_bits value (ExtraTagBitOffset + ExtraTagCount t)
           (Z.to_nat (16 - ExtraTagCount t)) = [].

(** The number of extra bits that [priority] counts for [value] is at most
    the number of extra tags of the target. *)
Definition extraRank_of_accepted_bound (t : Target) (value : Z) : Prop :=
  0 <= BitCount (Z.shiftr (Z.land value ExtraTagMask) ExtraTagBitOffset)
    <= ExtraTagCount t.

(** The extra bits of [a] are among those of [b]. *)
Definition extra_subset (a b : Z) : Prop :=
  incl (extra_bits a) (extra_bits b).

(** [a] is at least as capable as [b]: its base tag is the one of [b] or a
    descendant of it, and its extra bits are a superset of those of [b]. *)
Definition at_least_as_capable (a b : Z) : Prop :=
  baseRank b <= baseRank a /\ extra_subset b a.

(** The conversion rule with the target at least as capable as the
    source. *)
Definition target_at_least_as_capable_rule (source target : Z) : Prop :=
  IsTagConversionAllowed target source = true
  <-> at_least_as_capable target source.

(** The composition of two sets keeps to one base bit. *)
Definition composition_keeps_one_base (a b : Z) : Prop :=
  at_most_one_base_bit (Tags_or a b).

(** The union of the indices of a list of tags. *)
Definition union_of (l : list Tag) : Z :=
  fold_right (fun T acc => Z.lor (Index T) acc) 0 l.

(** The symbol [compiledFeatures()] tests before it adds the tag; it has no
    operand for [Scalar] and none for [Avx512f]. *)
Definition enabled (c : BuildConfig) (T : Tag) : bool :=
  match T with
  | Scalar => false
  | Sse2 => CORRADE_TARGET_SSE2 c
  | Sse3 => CORRADE_TARGET_SSE3 c
  | Ssse3 => CORRADE_TARGET_SSSE3 c
  | Sse41 => CORRADE_TARGET_SSE41 c
  | Sse42 => CORRADE_TARGET_SSE42 c
  | Avx => CORRADE_TARGET_AVX c
  | Avx2 => CORRADE_TARGET_AVX2 c
  | Avx512f => false
  | Popcnt => CORRADE_TARGET_POPCNT c
  | Lzcnt => CORRADE_TARGET_LZCNT c
  | AvxF16c => CORRADE_TARGET_AVX_F16C c
  | AvxFma => CORRADE_TARGET_AVX_FMA c
  | Neon => CORRADE_TARGET_NEON c
  | NeonFma => CORRADE_TARGET_NEON_FMA c
  | NeonFp16 => CORRADE_TARGET_NEON_FP16 c
  | Simd128 => CORRADE_TARGET_SIMD128 c
  end.

(** The set [compiledFeatures()] returns has at most one base bit. *)
Definition compiled_set_has_one_base (c : BuildConfig) : Prop :=
  at_most_one_base_bit (_data (compiledFeatures c)).

(** A variant is safe to run when its tag is a subset of the features. *)
Definition safe (features : Features) (V : Tag) : bool :=
  Features_le (Features_of_tag V) features.

(** Bounded universal quantification that computes: [P] on the [n] integers
    from [a] on. *)
Fixpoint forall_from (n : nat) (a : Z) (P : Z -> bool) : bool :=
  match n with
  | O => true
  | S k => P a && forall_from k (a + 1) P
  end.

(** [B] is contained in the features. *)
Definition contained (features : Features) (B : Tag) : bool :=
  Features_ge features (Features_of_tag B).

(** [B] is the highest base tag of the target contained in the features, or
    [Scalar] when none is. *)
Definition highest_contained (t : Target) (features : Features) (B : Tag)
    : Prop :=
  (In B (base_tags t) /\ contained features B = true /\
   forall T, In T (base_tags t) -> Index B < Index T ->
             contained features T = false)
  \/ (B = Scalar /\
      forall T, In T (base_tags t) -> contained features T = false).

(** The features contain, with each base tag, the tag it derives from: what
    a machine that implements a tier reports. *)
Definition cumulative (t : Target) (features : Features) : Prop :=
  forall T B, In T (base_tags t) -> safe features T = true ->
              base_class T = Some B -> safe features B = true.

(** The dispatcher returns a declared variant that is safe and whose
    priority no safe declared variant exceeds. *)
Definition selects_safe_maximum (t : Target) (declared : list Tag)
    (features : Features) : Prop :=
  exists V,
    dispatch_base t declared features = Some V /\
    safe features V = true /\
    forall W, In W declared -> safe features W = true ->
              priority_tag t W <= priority_tag t V.

(** Build configurations used as examples: no [CORRADE_TARGET_*] feature
    symbol defined; x86-64 GCC on Linux with [-msse3]; 32-bit ARM MSVC on
    Windows with NEON and FMA; WebAssembly with SIMD128. *)
Definition plain_build (t : Target) : BuildConfig :=
  mkBuildConfig t false false false false false false false false false
    false false false false false false false false false false false 0.

Definition x86_sse3_gcc_build : BuildConfig :=
  mkBuildConfig X86 true true false false false false false false false
    false false false false false false false true false false true 0.

Definition arm_neon_fma_msvc_build : BuildConfig :=
  mkBuildConfig ARM false false false false false false false false false
    false false true true false false true false false false false 0.

Definition wasm_simd128_build : BuildConfig :=
  mkBuildConfig WASM false false false false false false false false false
    false false false false false true false false false false false 0.

(** ** Further parts of the header *)

(** [DefaultBaseT]: the first tier of the target whose symbol is defined,
    highest first.  [CORRADE_TARGET_AVX512F], which [compiledFeatures()] does
    not look at, is a parameter of its own.  The [typedef] names no type when
    none of the three target symbols is defined. *)
Definition DefaultBase (c : BuildConfig) (CORRADE_TARGET_AVX512F : bool)
    : option Tag :=
  match target c with
  | X86 =>
      Some (if CORRADE_TARGET_AVX512F then Avx512f
            else if CORRADE_TARGET_AVX2 c then Avx2
            else if CORRADE_TARGET_AVX c then Avx
            else if CORRADE_TARGET_SSE42 c then Sse42
            else if CORRADE_TARGET_SSE41 c then Sse41
            else if CORRADE_TARGET_SSSE3 c then Ssse3
            else if CORRADE_TARGET_SSE3 c then Sse3
            else if CORRADE_TARGET_SSE2 c then Sse2
            else Scalar)
  | ARM =>
      Some (if CORRADE_TARGET_NEON_FP16 c then NeonFp16
            else if CORRADE_TARGET_NEON_FMA c then NeonFma
            else if CORRADE_TARGET_NEON c then Neon
            else Scalar)
  | WASM => Some (if CORRADE_TARGET_SIMD128 c then Simd128 else Scalar)
  | Other => None
  end.

(** [DefaultExtraT::Value]. *)
Definition DefaultExtra (c : BuildConfig) : Z :=
  match target c with
  | X86 =>
      Z.lor (ifdef (CORRADE_TARGET_POPCNT c) (Index Popcnt))
      (Z.lor (ifdef (CORRADE_TARGET_LZCNT c) (Index Lzcnt))
      (Z.lor (ifdef (CORRADE_TARGET_AVX_FMA c) (Index AvxFma))
      (Z.lor (ifdef (CORRADE_TARGET_AVX_F16C c) (Index AvxF16c))
       0)))
  | _ => 0
  end.


(** The cascade of [_CORRADE_CPU_DISPATCHER_IMPLEMENTATION(function, )],
    with nothing for [extra]: the test is [features >= Tag] and the call
    [function(CORRADE_CPU_SELECT(Tag))] on the tag alone. *)
Fixpoint scan_select {R : Type} (function : TagArg -> option R)
    (features : Features) (candidates : list Tag) : option R :=
  match candidates with
  | [] => function (OneTag Scalar)
  | B :: rest =>
      if Features_ge features (Features_of_tag B)
      then function (OneTag B)
      else scan_select function features rest
  end.

(** [type function(Cpu::Features features)] as [_CORRADE_CPU_DISPATCHER0]
    defines it. *)
Definition _CORRADE_CPU_DISPATCHER0 {R : Type} (t : Target)
    (function : TagArg -> option R) (features : Features) : option R :=
  match t with
  | X86 =>
      scan_select function features
        [Avx512f; Avx2; Avx; Sse42; Sse41; Ssse3; Sse3; Sse2]
  | ARM => scan_select function features [NeonFp16; NeonFma; Neon]
  | WASM => scan_select function features [Simd128]
  | Other => scan_select function features []
  end.

(** [CORRADE_CPU_DISPATCHER(type, function, listed...)]:
    [_CORRADE_CPU_DISPATCHER_PICK] takes [_CORRADE_CPU_DISPATCHER0] without
    listed tags and [_CORRADE_CPU_DISPATCHERn] with one to seven; with more
    the macro does not expand to a dispatcher. *)
Definition CORRADE_CPU_DISPATCHER {R : Type} (t : Target)
    (function : TagArg -> option R) (listed : list Tag)
    (features : Features) : option R :=
  match listed with
  | [] => _CORRADE_CPU_DISPATCHER0 t function features
  | _ :: _ =>
      if (length listed <=? 7)%nat
      then _CORRADE_CPU_DISPATCHERn t function listed features
      else None
  end.

(** The initialiser of [CORRADE_CPU_DISPATCHED_POINTER(dispatcher, ...)] and
    the resolver of [CORRADE_CPU_DISPATCHED_IFUNC] off ARM:
    [dispatcher(Corrade::Cpu::runtimeFeatures())]. *)
Definition CORRADE_CPU_DISPATCHED_POINTER {R : Type}
    (dispatcher : Features -> R) (c : BuildConfig) (probed : Features) : R :=
  dispatcher (runtimeFeatures c probed).

(** The union of the listed tags that the features contain. *)
Definition listed_in (features : Features) (listed : list Tag) : Z :=
  fold_left (fun extra first =>
               if Features_bool (Features_and features (Features_of_tag first))
               then Tags_or extra (Index first) else extra)
            listed 0.

(** The extra part of a value. *)
Definition extra_value (value : Z) : Z := Z.land value ExtraTagMask.

(** * Properties *)

(** ** Concrete values *)

Example masks_values : BaseTagMask = 0xffff /\ ExtraTagMask = 0xffff0000.
Proof. split; reflexivity. Qed.

Example Index_values :
  map Index (target_tags X86)
  = [0; 1; 2; 4; 8; 16; 32; 64; 128; 0x10000; 0x20000; 0x40000; 0x80000].
Proof. reflexivity. Qed.

Example BitIndex_values :
  map BitIndex [0; 1; 2; 3; 64; 0x8000; 0xffff] = [0; 1; 2; 2; 7; 16; 16].
Proof. reflexivity. Qed.

Example BitCount_values :
  map BitCount [0; 1; 3; 0xf0f1; 0xffff] = [0; 1; 2; 9; 16].
Proof. reflexivity. Qed.

Example priority_values :
  priority X86 (Index Sse2) = Some 5 /\
  priority X86 (Index Popcnt) = Some 1 /\
  priority X86 (Z.lor (Index Avx2) (Index Popcnt)) = Some 36 /\
  priority ARM (Index NeonFma) = Some 2 /\
  priority X86 (Z.lor (Index Sse2) (Index Sse3)) = None /\
  priority ARM (Index Popcnt) = None.
Proof. repeat split; reflexivity. Qed.

Example upcasts_values :
  upcasts Sse41 = [Sse41; Ssse3; Sse3; Sse2; Scalar] /\
  upcasts NeonFp16 = [NeonFp16; NeonFma; Neon; Scalar] /\
  upcasts Popcnt = [Popcnt].
Proof. repeat split; reflexivity. Qed.

Example dispatch_base_values :
  dispatch_base X86 [Scalar; Sse42; Avx2]
    (Features_of_tags (Z.lor (Index Sse2) (Z.lor (Index Sse3)
       (Z.lor (Index Ssse3) (Z.lor (Index Sse41)
          (Z.lor (Index Sse42) (Index Avx))))))) = Some Sse42 /\
  dispatch_base X86 [Scalar; Sse42; Avx2] (Features_of_tag Popcnt)
  = Some Scalar.
Proof. split; reflexivity. Qed.

(** The ambiguity of the header's documentation: overloads for
    [Sse41|Popcnt] and [Sse41|Lzcnt] tie on a machine that has both extra
    tags, and the dispatcher does not build until the overload for both is
    declared. *)
Example ambiguity_values :
  call_with_select X86
    [(0, 0); (Z.lor (Index Sse41) (Index Popcnt), 21);
     (Z.lor (Index Sse41) (Index Lzcnt), 21)]
    (Combined (Z.lor (Index Sse41) (Z.lor (Index Popcnt) (Index Lzcnt))))
  = None /\
  dispatcher_builds X86
    [OneTag Scalar; Combined (Z.lor (Index Sse41) (Index Popcnt));
     Combined (Z.lor (Index Sse41) (Index Lzcnt))] [Popcnt; Lzcnt] = false /\
  dispatcher_builds X86
    [OneTag Scalar; Combined (Z.lor (Index Sse41) (Index Popcnt));
     Combined (Z.lor (Index Sse41) (Index Lzcnt));
     Combined (Z.lor (Index Sse41) (Z.lor (Index Popcnt) (Index Lzcnt)))]
    [Popcnt; Lzcnt] = true.
Proof. repeat split; reflexivity. Qed.

(** [CORRADE_CPU_DECLARE] takes the index from the return type of
    [priority] and so accepts what a call of [priority] rejects; an overload
    declared for two base tags is never called. *)
Example declare_values :
  CORRADE_CPU_DECLARE X86 (Combined (Z.lor (Index Sse2) (Index Avx2)))
  = (0x41, 35) /\
  priority X86 (Z.lor (Index Sse2) (Index Avx2)) = None /\
  CORRADE_CPU_DECLARE ARM (Combined (Index Popcnt)) = (0x10000, 1) /\
  CORRADE_CPU_DECLARE X86 (Combined 0x100001) = (0x100001, 6) /\
  dispatcher_builds X86
    [OneTag Scalar; Combined (Z.lor (Index Sse2) (Index Avx2))] [Popcnt]
  = true /\
  dispatch X86 [OneTag Scalar; Combined (Z.lor (Index Sse2) (Index Avx2))]
    [Popcnt] (Features_of_tag Avx2)
  = Some (0, 0).
Proof. repeat split; reflexivity. Qed.

(** ** Checking a predicate on every 16-bit value *)

Lemma forall_from_spec (n : nat) (P : Z -> bool) :
  forall a0, forall_from n a0 P = true ->
  forall a, a0 <= a < a0 + Z.of_nat n -> P a = true.
Proof.
  induction n as [|k IH]; intros a0 Hall a Ha.
  - simpl in Ha. lia.
  - simpl in Hall. apply andb_prop in Hall as [Hk Hrest].
    destruct (Z.eq_dec a a0) as [->|Hne]; [exact Hk|].
    apply (IH (a0 + 1) Hrest). lia.
Qed.

Lemma forall_ushort (P : Z -> bool) :
  forall_from (Z.to_nat 65536) 0 P = true ->
  forall a, ushort_range a -> P a = true.
Proof.
  intros Hall a [Hlo Hhi]. apply (forall_from_spec _ _ _ Hall).
  rewrite Z2Nat.id by lia. change (2 ^ 16) with 65536 in Hhi. lia.
Qed.

(** ** [BitIndex] and [BitCount] *)

Lemma BitIndex_0 : BitIndex 0 = 0.
Proof. reflexivity. Qed.

Lemma BitIndex_step (A : Z) :
  0 < A -> BitIndex A = 1 + BitIndex (Z.shiftr A 1).
Proof.
  intros HA. rewrite BitIndex_equation_1.
  destruct (Z_le_gt_dec A 0); [lia|reflexivity].
Qed.

Lemma BitIndex_log2 (A : Z) : 0 < A -> BitIndex A = 1 + Z.log2 A.
Proof.
  intros HA. assert (Hnn : 0 <= A) by lia. revert HA. pattern A.
  apply Zlt_0_ind; [|exact Hnn]. clear A Hnn. intros A IH _ HA.
  rewrite BitIndex_step by lia.
  destruct (Z.eq_dec A 1) as [->|Hne]; [reflexivity|].
  assert (Hhalf : 0 < Z.shiftr A 1 < A).
  { rewrite Z.shiftr_div_pow2 by lia. change (2 ^ 1) with 2.
    split; [apply Z.div_str_pos; lia|apply Z.div_lt; lia]. }
  rewrite IH by lia.
  rewrite Z.log2_shiftr by lia.
  assert (1 <= Z.log2 A) by (apply Z.log2_le_pow2; [lia|simpl; lia]).
  lia.
Qed.

Lemma BitIndex_pow2 (i : Z) : 0 <= i -> BitIndex (2 ^ i) = i + 1.
Proof.
  intros Hi. rewrite BitIndex_log2 by (apply Z.pow_pos_nonneg; lia).
  rewrite Z.log2_pow2 by lia. lia.
Qed.

Lemma BitCount_check :
  forall_from (Z.to_nat 65536) 0 (fun a => BitCount a =? popcount16 a) = true.
Proof. vm_compute. reflexivity. Qed.

Lemma BitCount_popcount16 (A : Z) : ushort_range A -> BitCount A = popcount16 A.
Proof.
  intros HA. apply Z.eqb_eq.
  exact (forall_ushort _ BitCount_check A HA).
Qed.

(** C10.  For every unsigned 16-bit [A], [BitCount<A>::Value] is the number of
    bits set in [A]; [BitIndex<A>::Value] is 0 for [A = 0] and
    [1 + floor(log2 A)] otherwise; so for a single base bit at position [i]
    it is [i + 1], the base rank the priority computation uses. *)
Theorem C10_BitCount_BitIndex (A : Z) :
  ushort_range A ->
  BitCount A = popcount16 A /\
  (A = 0 -> BitIndex A = 0) /\
  (A <> 0 -> BitIndex A = 1 + Z.log2 A /\
             2 ^ (BitIndex A - 1) <= A < 2 ^ BitIndex A) /\
  (forall i, 0 <= i < 16 -> A = 2 ^ i ->
             BitIndex A = i + 1 /\ baseRank A = BitIndex A).
Proof.
  intros HA. split; [apply BitCount_popcount16; exact HA|].
  split; [intros ->; apply BitIndex_0|].
  split.
  - intros Hne. destruct HA as [Hlo Hhi].
    assert (Hpos : 0 < A) by lia.
    rewrite BitIndex_log2 by exact Hpos. split; [reflexivity|].
    replace (1 + Z.log2 A - 1) with (Z.log2 A) by lia.
    replace (1 + Z.log2 A) with (Z.succ (Z.log2 A)) by lia.
    apply Z.log2_spec. exact Hpos.
  - intros i Hi ->. rewrite BitIndex_pow2 by lia. split; [reflexivity|].
    assert (Hcases : i = 0 \/ i = 1 \/ i = 2 \/ i = 3 \/ i = 4 \/ i = 5 \/
                     i = 6 \/ i = 7 \/ i = 8 \/ i = 9 \/ i = 10 \/ i = 11 \/
                     i = 12 \/ i = 13 \/ i = 14 \/ i = 15) by lia.
    repeat (destruct Hcases as [->|Hcases]; [reflexivity|]).
    subst i. reflexivity.
Qed.

Lemma C10_witness :
  ushort_range 0x40 /\ BitCount 0x40 = 1 /\ BitIndex 0x40 = 7.
Proof.
  assert (H : ushort_range 0x40) by (unfold ushort_range; lia).
  split; [exact H|].
  destruct (C10_BitCount_BitIndex 0x40 H) as (Hc & _ & _ & Hp).
  split; [rewrite Hc; reflexivity|].
  exact (proj1 (Hp 6 ltac:(lia) eq_refl)).
Defined.

(** ** The masks, and the two halves of a value *)

Lemma BaseTagMask_ones : BaseTagMask = Z.ones 16.
Proof. reflexivity. Qed.

Lemma ExtraTagMask_value : ExtraTagMask = 0xffff0000.
Proof. reflexivity. Qed.

Lemma land_BaseTagMask_range (value : Z) :
  ushort_range (Z.land value BaseTagMask).
Proof.
  rewrite BaseTagMask_ones, Z.land_ones by lia.
  apply Z.mod_pos_bound. lia.
Qed.

Lemma land_BaseTagMask_idem (value : Z) :
  Z.land (Z.land value BaseTagMask) BaseTagMask = Z.land value BaseTagMask.
Proof. rewrite <- Z.land_assoc, Z.land_diag. reflexivity. Qed.

Lemma shiftr_extra_range (value : Z) :
  uint_range value -> ushort_range (Z.shiftr value ExtraTagBitOffset).
Proof.
  intros [Hlo Hhi]. unfold ushort_range, ExtraTagBitOffset.
  rewrite Z.shiftr_div_pow2 by lia. split.
  - apply Z.div_pos; lia.
  - apply Z.div_lt_upper_bound; [lia|].
    change (2 ^ 16 * 2 ^ 16) with (2 ^ 32). exact Hhi.
Qed.

Lemma extra_part (value : Z) :
  uint_range value ->
  Z.shiftr (Z.land value ExtraTagMask) ExtraTagBitOffset
  = Z.shiftr value ExtraTagBitOffset.
Proof.
  intros Hv. rewrite Z.shiftr_land, ExtraTagMask_value.
  change (Z.shiftr 0xffff0000 ExtraTagBitOffset) with (Z.ones 16).
  rewrite Z.land_ones by lia. apply Z.mod_small.
  apply shiftr_extra_range. exact Hv.
Qed.

Lemma extra_part_nonneg (value : Z) :
  0 <= Z.shiftr (Z.land value ExtraTagMask) ExtraTagBitOffset.
Proof.
  apply Z.shiftr_nonneg. rewrite ExtraTagMask_value.
  apply Z.land_nonneg. right. lia.
Qed.

(** ** Counting bits *)

Lemma set_bits_ext (v w : Z) (n : nat) :
  forall from,
    (forall i, from <= i < from + Z.of_nat n -> Z.testbit v i = Z.testbit w i) ->
    set_bits v from n = set_bits w from n.
Proof.
  induction n as [|k IH]; intros from Hext; [reflexivity|].
  cbn [set_bits]. rewrite (Hext from) by lia.
  rewrite (IH (from + 1)); [reflexivity|].
  intros i Hi. apply Hext. lia.
Qed.

Lemma set_bits_shiftr (v s : Z) (n : nat) :
  0 <= s ->
  forall from, 0 <= from ->
    length (set_bits (Z.shiftr v s) from n)
    = length (set_bits v (from + s) n).
Proof.
  intros Hs. induction n as [|k IH]; intros from Hfrom; [reflexivity|].
  cbn [set_bits]. rewrite !length_app, Z.shiftr_spec by lia.
  rewrite (IH (from + 1)) by lia.
  replace (from + 1 + s) with (from + s + 1) by lia.
  destruct (Z.testbit v (from + s)); reflexivity.
Qed.

Lemma base_bits_land (value : Z) :
  base_bits (Z.land value BaseTagMask) = base_bits value.
Proof.
  apply set_bits_ext. intros i Hi.
  rewrite Z.land_spec, BaseTagMask_ones, Z.ones_spec_low by (simpl in Hi; lia).
  apply andb_true_r.
Qed.

Lemma baseRank_land (value : Z) :
  baseRank (Z.land value BaseTagMask) = baseRank value.
Proof. unfold baseRank. rewrite base_bits_land. reflexivity. Qed.

Lemma extraRank_BitCount (value : Z) :
  uint_range value ->
  BitCount (Z.shiftr value ExtraTagBitOffset) = extraRank value.
Proof.
  intros Hv. rewrite BitCount_popcount16 by (apply shiftr_extra_range; exact Hv).
  unfold popcount16, extraRank, extra_bits, ExtraTagBitOffset.
  rewrite set_bits_shiftr by lia. reflexivity.
Qed.

(** The bit trick [x & (x - 1)] of the header against the count of base
    bits, and [BitIndex] against the position of the only base bit, on every
    16-bit pattern. *)
Lemma base_check :
  forall_from (Z.to_nat 65536) 0
    (fun x =>
       Bool.eqb (at_most_one_base x) (length (base_bits x) <=? 1)%nat
       && (negb (length (base_bits x) <=? 1)%nat
           || (((if x =? 0 then 0 else 1 + Z.log2 x) =? baseRank x)
               && ((x =? 0) || (x =? 2 ^ Z.log2 x)))))
  = true.
Proof. vm_compute. reflexivity. Qed.

Lemma at_most_one_base_land (value : Z) :
  at_most_one_base (Z.land value BaseTagMask) = at_most_one_base value.
Proof. unfold at_most_one_base. rewrite land_BaseTagMask_idem. reflexivity. Qed.

Lemma at_most_one_base_spec (value : Z) :
  at_most_one_base value = true <-> at_most_one_base_bit value.
Proof.
  pose proof (forall_ushort _ base_check _ (land_BaseTagMask_range value)) as H.
  cbv beta in H. apply andb_prop in H as [H _].
  apply Bool.eqb_prop in H.
  rewrite at_most_one_base_land, base_bits_land in H.
  unfold at_most_one_base_bit. rewrite H. apply Nat.leb_le.
Qed.

Lemma BitIndex_baseRank (value : Z) :
  at_most_one_base_bit value ->
  BitIndex (Z.land value BaseTagMask) = baseRank value.
Proof.
  intros Hone.
  pose proof (land_BaseTagMask_range value) as Hr.
  pose proof (forall_ushort _ base_check _ Hr) as H.
  cbv beta in H. apply andb_prop in H as [_ H].
  rewrite base_bits_land, baseRank_land in H.
  apply Nat.leb_le in Hone. rewrite Hone in H. cbn [negb orb] in H.
  apply andb_prop in H as [H _].
  apply Z.eqb_eq in H. rewrite <- H.
  destruct (Z.eqb_spec (Z.land value BaseTagMask) 0) as [->|Hne].
  - apply BitIndex_0.
  - apply BitIndex_log2. destruct Hr. lia.
Qed.

Lemma BitCount_bound (t : Target) (x : Z) :
  0 <= x < Z.shiftl 1 (ExtraTagCount t) ->
  0 <= BitCount x <= ExtraTagCount t.
Proof.
  intros Hx.
  assert (H : (0 <=? BitCount x) && (BitCount x <=? ExtraTagCount t) = true).
  { destruct t; cbn in Hx.
    - apply (forall_from_spec 16 (fun x => (0 <=? BitCount x)
                                           && (BitCount x <=? 4)) 0);
        [reflexivity|cbn; lia].
    - assert (x = 0) as -> by lia. reflexivity.
    - assert (x = 0) as -> by lia. reflexivity.
    - assert (x = 0) as -> by lia. reflexivity. }
  apply andb_prop in H as [H1 H2]. lia.
Qed.

(** ** The extra bits stay in their range *)

Lemma set_bits_nil (v : Z) (n : nat) :
  forall from, set_bits v from n = [] ->
  forall i, from <= i < from + Z.of_nat n -> Z.testbit v i = false.
Proof.
  induction n as [|k IH]; intros from Hnil i Hi; [simpl in Hi; lia|].
  cbn [set_bits] in Hnil. apply app_eq_nil in Hnil as [Hhead Hrest].
  destruct (Z.eq_dec i from) as [->|Hne].
  - destruct (Z.testbit v from); [discriminate|reflexivity].
  - apply (IH (from + 1) Hrest). lia.
Qed.

Lemma extra_within_range_bound (t : Target) (value : Z) :
  uint_range value -> extra_within_range t value ->
  Z.shiftr value ExtraTagBitOffset < Z.shiftl 1 (ExtraTagCount t).
Proof.
  intros Hv Hext.
  pose proof (shiftr_extra_range _ Hv) as [Hlo Hhi].
  assert (HE : 0 <= ExtraTagCount t <= 4) by (destruct t; cbn; lia).
  rewrite Z.shiftl_1_l.
  destruct (Z.eq_dec (Z.shiftr value ExtraTagBitOffset) 0) as [Hz|Hne].
  - rewrite Hz. apply Z.pow_pos_nonneg; lia.
  - apply Z.log2_lt_pow2; [lia|].
    destruct (Z.lt_ge_cases (Z.log2 (Z.shiftr value ExtraTagBitOffset))
                            (ExtraTagCount t)) as [Hlt|Hge]; [exact Hlt|].
    exfalso.
    assert (Hbit : Z.testbit (Z.shiftr value ExtraTagBitOffset)
                     (Z.log2 (Z.shiftr value ExtraTagBitOffset)) = true)
      by (apply Z.bit_log2; lia).
    assert (Hlog : Z.log2 (Z.shiftr value ExtraTagBitOffset) < 16)
      by (apply Z.log2_lt_pow2; lia).
    rewrite Z.shiftr_spec in Hbit by lia.
    rewrite (set_bits_nil _ _ _ Hext) in Hbit; [discriminate|].
    unfold ExtraTagBitOffset in *. rewrite Z2Nat.id by lia. lia.
Qed.

(** ** Priority *)

(** On the tags of a target the two overloads of [priority] agree. *)
Lemma priority_tag_agrees (t : Target) (T : Tag) :
  In T (target_tags t) -> priority t (Index T) = Some (priority_tag t T).
Proof.
  destruct t; cbn [target_tags base_tags extra_tags app In]; intros HT;
    repeat (destruct HT as [<-|HT]; [reflexivity|]); destruct HT.
Qed.

(** C1.  For every set with at most one base bit and with its extra bits in
    the range of the target's extra tags, [priority] is
    [baseRank * (ExtraTagCount + 1) + extraRank]: [baseRank] is 0 without a
    base bit and [i + 1] for the base bit [i], [extraRank] is the number of
    extra bits set. *)
Theorem C1_priority_formula (t : Target) (value : Z) :
  uint_range value ->
  at_most_one_base_bit value ->
  extra_within_range t value ->
  priority t value
  = Some (baseRank value * (ExtraTagCount t + 1) + extraRank value) /\
  (forall T, In T (target_tags t) -> Index T = value ->
             priority_tag t T
             = baseRank value * (ExtraTagCount t + 1) + extraRank value).
Proof.
  intros Hv Hone Hext.
  assert (Hp : priority t value
               = Some (baseRank value * (ExtraTagCount t + 1)
                       + extraRank value));
    [|split; [exact Hp|intros T HT <-;
              rewrite (priority_tag_agrees t T HT) in Hp;
              injection Hp as Hp; exact Hp]].
  unfold priority.
  rewrite (proj2 (at_most_one_base_spec value) Hone).
  unfold extra_in_bounds. rewrite extra_part by exact Hv.
  pose proof (extra_within_range_bound t value Hv Hext) as Hb.
  apply Z.ltb_lt in Hb. rewrite Hb.
  rewrite BitIndex_baseRank by exact Hone.
  rewrite extraRank_BitCount by exact Hv. reflexivity.
Qed.

Lemma C1_witness :
  priority X86 (Z.lor (Index Avx2) (Z.lor (Index Popcnt) (Index AvxFma)))
  = Some (7 * (4 + 1) + 2).
Proof.
  refine (proj1 (C1_priority_formula X86
           (Z.lor (Index Avx2) (Z.lor (Index Popcnt) (Index AvxFma))) _ _ _)).
  - unfold uint_range. vm_compute. split; [discriminate|reflexivity].
  - unfold at_most_one_base_bit. vm_compute. apply le_n.
  - reflexivity.
Defined.

Lemma priority_inv (t : Target) (value p : Z) :
  priority t value = Some p ->
  at_most_one_base_bit value /\
  extra_in_bounds t value = true /\
  p = baseRank value * (ExtraTagCount t + 1)
      + BitCount (Z.shiftr (Z.land value ExtraTagMask) ExtraTagBitOffset).
Proof.
  unfold priority. intros H.
  destruct (at_most_one_base value) eqn:Hone; [|discriminate].
  destruct (extra_in_bounds t value) eqn:Hext; [|discriminate].
  apply at_most_one_base_spec in Hone.
  rewrite BitIndex_baseRank in H by exact Hone.
  injection H as <-. auto.
Qed.

Lemma accepted_extraRank_bound (t : Target) (value : Z) :
  extra_in_bounds t value = true ->
  0 <= BitCount (Z.shiftr (Z.land value ExtraTagMask) ExtraTagBitOffset)
    <= ExtraTagCount t.
Proof.
  intros Hext. apply BitCount_bound. split.
  - apply extra_part_nonneg.
  - apply Z.ltb_lt. exact Hext.
Qed.

Lemma baseRank_nonneg (value : Z) : 0 <= baseRank value.
Proof.
  unfold baseRank, base_bits.
  assert (H : forall n from, 0 <= from ->
                forall i, In i (set_bits value from n) -> 0 <= i).
  { induction n as [|k IH]; intros from Hfrom i Hin; [destruct Hin|].
    cbn [set_bits] in Hin. apply in_app_or in Hin as [Hin|Hin].
    - destruct (Z.testbit value from); [|destruct Hin].
      destruct Hin as [<-|[]]. exact Hfrom.
    - apply (IH (from + 1)); [lia|exact Hin]. }
  destruct (set_bits value 0 16) as [|i rest] eqn:E; [lia|].
  specialize (H 16%nat 0 ltac:(lia) i). rewrite E in H.
  specialize (H (or_introl eq_refl)). lia.
Qed.

(** C2.  Priority is strictly monotonic in the base rank: of two sets that
    [priority] accepts, the one with the higher base tier has the higher
    priority, whichever extra tags either carries, because the number of
    extra bits of an accepted set is at most [ExtraTagCount]. *)
Theorem C2_priority_monotonic_in_base (t : Target) (A B pa pb : Z) :
  priority t A = Some pa ->
  priority t B = Some pb ->
  baseRank A < baseRank B ->
  pa < pb /\
  extraRank_of_accepted_bound t A /\ extraRank_of_accepted_bound t B.
Proof.
  intros HA HB Hlt.
  apply priority_inv in HA as (_ & HextA & ->).
  apply priority_inv in HB as (_ & HextB & ->).
  pose proof (accepted_extraRank_bound t A HextA) as HbA.
  pose proof (accepted_extraRank_bound t B HextB) as HbB.
  pose proof (baseRank_nonneg A) as HnA.
  split; [nia|]. split; assumption.
Qed.

Lemma C2_witness :
  priority X86 (Z.lor (Index Sse2)
                  (Z.lor (Index Popcnt) (Z.lor (Index Lzcnt)
                     (Z.lor (Index AvxF16c) (Index AvxFma))))) = Some 9 /\
  priority X86 (Index Sse3) = Some 10 /\
  9 < 10.
Proof.
  assert (HA : priority X86 (Z.lor (Index Sse2)
                  (Z.lor (Index Popcnt) (Z.lor (Index Lzcnt)
                     (Z.lor (Index AvxF16c) (Index AvxFma))))) = Some 9)
    by reflexivity.
  assert (HB : priority X86 (Index Sse3) = Some 10) by reflexivity.
  split; [exact HA|]. split; [exact HB|].
  refine (proj1 (C2_priority_monotonic_in_base X86 _ _ 9 10 HA HB _)).
  vm_compute. reflexivity.
Defined.

(** ** [Features] as a set *)

Lemma unot_range (x : Z) : uint_range x -> unot x = 2 ^ 32 - 1 - x.
Proof.
  intros [Hlo Hhi]. unfold unot, wrap32.
  replace (Z.lnot x) with (2 ^ 32 - 1 - x + (-1) * 2 ^ 32)
    by (unfold Z.lnot; lia).
  rewrite Z_mod_plus_full. apply Z.mod_small. lia.
Qed.

Lemma unot_involutive (x : Z) : uint_range x -> unot (unot x) = x.
Proof.
  intros Hx. rewrite (unot_range x Hx).
  rewrite unot_range by (destruct Hx; unfold uint_range; lia). lia.
Qed.

Lemma land_lor_absorb_l (a b : Z) : Z.land (Z.lor a b) a = a.
Proof.
  apply Z.bits_inj'. intros n _. rewrite Z.land_spec, Z.lor_spec.
  destruct (Z.testbit a n), (Z.testbit b n); reflexivity.
Qed.

Lemma land_land_absorb_l (a b : Z) : Z.land (Z.land a b) a = Z.land a b.
Proof.
  apply Z.bits_inj'. intros n _. rewrite !Z.land_spec.
  destruct (Z.testbit a n), (Z.testbit b n); reflexivity.
Qed.

(** C7.  For all [Features] [A] and [B]: [A|B] is a superset of both and
    [A&B] a subset of both, in the sense of [operator>=] and [operator<=];
    [~~A == A]; [A|A == A]; [A&A == A]. *)
Theorem C7_Features_algebra (A B : Features) :
  uint_range (_data A) ->
  Features_ge (Features_or A B) A = true /\
  Features_ge (Features_or A B) B = true /\
  Features_le A (Features_or A B) = true /\
  Features_le B (Features_or A B) = true /\
  Features_le (Features_and A B) A = true /\
  Features_le (Features_and A B) B = true /\
  Features_ge A (Features_and A B) = true /\
  Features_ge B (Features_and A B) = true /\
  Features_eq (Features_not (Features_not A)) A = true /\
  Features_eq (Features_or A A) A = true /\
  Features_eq (Features_and A A) A = true.
Proof.
  intros HA. destruct A as [a], B as [b].
  unfold Features_ge, Features_le, Features_eq, Features_or, Features_and,
    Features_not. cbn [_data] in *.
  repeat split; apply Z.eqb_eq.
  - apply land_lor_absorb_l.
  - rewrite (Z.lor_comm a b). apply land_lor_absorb_l.
  - rewrite Z.land_comm. apply land_lor_absorb_l.
  - rewrite Z.land_comm, (Z.lor_comm a b). apply land_lor_absorb_l.
  - apply land_land_absorb_l.
  - rewrite (Z.land_comm a b). apply land_land_absorb_l.
  - rewrite Z.land_comm. apply land_land_absorb_l.
  - rewrite Z.land_comm, (Z.land_comm a b). apply land_land_absorb_l.
  - apply unot_involutive. exact HA.
  - apply Z.lor_diag.
  - apply Z.land_diag.
Qed.

Lemma C7_witness :
  Features_ge (Features_or (Features_of_tag Avx2) (Features_of_tag Popcnt))
              (Features_of_tag Avx2) = true /\
  Features_eq (Features_not (Features_not (Features_of_tag Avx2)))
              (Features_of_tag Avx2) = true.
Proof.
  assert (H : uint_range (_data (Features_of_tag Avx2)))
    by (unfold uint_range; cbn; lia).
  pose proof (C7_Features_algebra (Features_of_tag Avx2)
                (Features_of_tag Popcnt) H) as T.
  split; [exact (proj1 T)|].
  exact (proj1 (proj2 (proj2 (proj2 (proj2 (proj2 (proj2 (proj2 (proj2 T))))))))).
Defined.

(** ** [runtimeFeatures()] without a detection path *)

(** C8.  Where no detection path (CPUID, [getauxval()], [sysctlbyname()]) is
    compiled in, [runtimeFeatures()] is [compiledFeatures()]: equal by
    [operator==], and the same whatever the machine would report. *)
Theorem C8_runtime_is_compiled_without_probing
    (c : BuildConfig) (probed : Features) :
  runtime_detection_compiled_in c = false ->
  runtimeFeatures c probed = compiledFeatures c /\
  Features_eq (runtimeFeatures c probed) (compiledFeatures c) = true /\
  (forall other, runtimeFeatures c other = runtimeFeatures c probed).
Proof.
  intros Hno. unfold runtimeFeatures. rewrite Hno.
  split; [reflexivity|]. split; [|reflexivity].
  unfold Features_eq. apply Z.eqb_refl.
Qed.

Lemma C8_witness :
  runtimeFeatures wasm_simd128_build (Features_of_tag Scalar)
  = Features_of_tag Simd128.
Proof.
  exact (proj1 (C8_runtime_is_compiled_without_probing wasm_simd128_build
                  (Features_of_tag Scalar) eq_refl)).
Defined.

(** ** Conversions between tag combinations *)

Lemma set_bits_In (v : Z) (n : nat) :
  forall from i,
    In i (set_bits v from n)
    <-> from <= i < from + Z.of_nat n /\ Z.testbit v i = true.
Proof.
  induction n as [|k IH]; intros from i.
  - simpl. split; [intros []|intros [H _]; lia].
  - cbn [set_bits]. rewrite in_app_iff, (IH (from + 1)). split.
    + intros [Hhead|[Hr Hb]]; [|split; [lia|exact Hb]].
      destruct (Z.testbit v from) eqn:E; [|destruct Hhead].
      destruct Hhead as [<-|[]]. split; [lia|exact E].
    + intros [Hr Hb]. destruct (Z.eq_dec i from) as [->|Hne].
      * left. rewrite Hb. left. reflexivity.
      * right. split; [lia|exact Hb].
Qed.

Lemma testbit_ExtraTagMask (n : Z) :
  0 <= n -> Z.testbit ExtraTagMask n = (16 <=? n) && (n <? 32).
Proof.
  intros Hn. rewrite ExtraTagMask_value.
  change 0xffff0000 with (Z.shiftl (Z.ones 16) 16).
  rewrite Z.shiftl_spec by lia.
  destruct (Z.leb_spec 16 n) as [Hge|Hlt].
  - rewrite Z.testbit_ones by lia.
    destruct (Z.leb_spec 0 (n - 16)), (Z.ltb_spec (n - 16) 16),
      (Z.ltb_spec n 32); try reflexivity; lia.
  - rewrite Z.testbit_neg_r by lia. reflexivity.
Qed.

Lemma extra_subset_spec (a b : Z) :
  Z.land (Z.land b a) ExtraTagMask = Z.land a ExtraTagMask
  <-> extra_subset a b.
Proof.
  unfold extra_subset, extra_bits, incl. split.
  - intros Heq i Hin. apply set_bits_In in Hin as [Hr Hb].
    apply set_bits_In. split; [exact Hr|].
    apply (f_equal (fun z => Z.testbit z i)) in Heq.
    rewrite !Z.land_spec, testbit_ExtraTagMask, Hb in Heq by lia.
    simpl in Hr.
    destruct (Z.leb_spec 16 i), (Z.ltb_spec i 32); try lia.
    destruct (Z.testbit b i); [reflexivity|discriminate].
  - intros Hincl. apply Z.bits_inj'. intros n Hn.
    rewrite !Z.land_spec, testbit_ExtraTagMask by exact Hn.
    destruct ((16 <=? n) && (n <? 32)) eqn:Hm;
      [|rewrite !andb_false_r; reflexivity].
    rewrite !andb_true_r.
    destruct (Z.testbit a n) eqn:Ha; [|apply andb_false_r].
    apply andb_prop in Hm as [H16 H32].
    apply Z.leb_le in H16. apply Z.ltb_lt in H32.
    assert (Hin : In n (set_bits a 16 16))
      by (apply set_bits_In; simpl; split; [lia|exact Ha]).
    apply Hincl, set_bits_In in Hin as [_ Hb]. rewrite Hb. reflexivity.
Qed.

Lemma one_base_bit_shape (value : Z) :
  at_most_one_base_bit value ->
  Z.land value BaseTagMask = 0
  \/ Z.land value BaseTagMask = 2 ^ Z.log2 (Z.land value BaseTagMask).
Proof.
  intros Hone.
  pose proof (forall_ushort _ base_check _ (land_BaseTagMask_range value)) as H.
  cbv beta in H. apply andb_prop in H as [_ H].
  rewrite base_bits_land in H.
  apply Nat.leb_le in Hone. rewrite Hone in H. cbn [negb orb] in H.
  apply andb_prop in H as [_ H]. apply orb_prop in H.
  destruct H as [H0|H2]; [left|right]; apply Z.eqb_eq; assumption.
Qed.

Lemma base_order_rank (value otherValue : Z) :
  at_most_one_base_bit value -> at_most_one_base_bit otherValue ->
  Z.land value BaseTagMask <= Z.land otherValue BaseTagMask
  <-> baseRank value <= baseRank otherValue.
Proof.
  intros Hv Ho.
  rewrite <- (BitIndex_baseRank value Hv), <- (BitIndex_baseRank otherValue Ho).
  pose proof (land_BaseTagMask_range value) as [Hx _].
  pose proof (land_BaseTagMask_range otherValue) as [Hy _].
  pose proof (one_base_bit_shape value Hv) as Sx.
  pose proof (one_base_bit_shape otherValue Ho) as Sy.
  set (x := Z.land value BaseTagMask) in *.
  set (y := Z.land otherValue BaseTagMask) in *.
  destruct (Z.eq_dec x 0) as [Hx0|Hx0].
  - rewrite Hx0, BitIndex_0. split; intros _; [|exact Hy].
    destruct (Z.eq_dec y 0) as [->|Hy0]; [rewrite BitIndex_0; lia|].
    rewrite BitIndex_log2 by lia. pose proof (Z.log2_nonneg y). lia.
  - rewrite (BitIndex_log2 x) by lia.
    destruct (Z.eq_dec y 0) as [Hy0|Hy0].
    + rewrite Hy0, BitIndex_0. pose proof (Z.log2_nonneg x) as Hlx.
      split; intros Hle; lia.
    + rewrite (BitIndex_log2 y) by lia. split; intros Hle.
      * pose proof (Z.log2_le_mono x y Hle). lia.
      * destruct Sx as [Sx|Sx]; [lia|]. destruct Sy as [Sy|Sy]; [lia|].
        rewrite Sx, Sy. apply Z.pow_le_mono_r; lia.
Qed.

Lemma Index_at_most_one_base (T : Tag) : at_most_one_base (Index T) = true.
Proof. destruct T; reflexivity. Qed.

(** C5, as the code has it.  A [Tags<value>] (the target) is constructible
    from a [Tags<otherValue>] (the source) exactly when both have at most one
    base bit, the base tag of the source is the one of the target or a
    descendant of it, and the extra bits of the source are a superset of
    those of the target: the source is at least as capable as the target.
    The constructor from a single tag applies the same rule. *)
Theorem C5_conversion_rule (value otherValue : Z) :
  (IsTagConversionAllowed value otherValue = true
   <-> at_most_one_base_bit value /\ at_most_one_base_bit otherValue /\
       at_least_as_capable otherValue value) /\
  (forall T, IsSingleTagConversionAllowed value (Index T)
             = IsTagConversionAllowed value (Index T)).
Proof.
  split.
  - unfold IsTagConversionAllowed, at_least_as_capable.
    rewrite !andb_true_iff, !at_most_one_base_spec, Z.geb_le, Z.eqb_eq,
      extra_subset_spec.
    split.
    + intros [[[Hv Ho] Hb] He]. repeat split; try assumption.
      apply base_order_rank; assumption.
    + intros (Hv & Ho & Hb & He). repeat split; try assumption.
      apply base_order_rank; assumption.
  - intros T. unfold IsSingleTagConversionAllowed, IsTagConversionAllowed.
    rewrite Index_at_most_one_base, andb_true_r. reflexivity.
Qed.

Lemma C5_witness :
  IsTagConversionAllowed (Index Sse2)
    (Z.lor (Index Avx2) (Index Popcnt)) = true.
Proof.
  apply (proj1 (C5_conversion_rule (Index Sse2)
                  (Z.lor (Index Avx2) (Index Popcnt)))).
  unfold at_most_one_base_bit, at_least_as_capable, extra_subset.
  split; [apply Nat.leb_le; reflexivity|].
  split; [apply Nat.leb_le; reflexivity|].
  split; [vm_compute; discriminate|].
  vm_compute. intros a [].
Defined.

(** The rule with the direction the other way round fails: [Tags<Sse2>] is
    constructible from [Tags<Avx2>], and [Sse2] is not at least as capable as
    [Avx2]. *)
Lemma C5_counterexample :
  ~ target_at_least_as_capable_rule (Index Avx2) (Index Sse2).
Proof.
  unfold target_at_least_as_capable_rule, at_least_as_capable.
  intros [Hfwd _]. destruct (Hfwd eq_refl) as [Hrank _].
  vm_compute in Hrank. apply Hrank. reflexivity.
Qed.

(** ** Two base bits *)

Lemma two_members_length (l : list Z) (i j : Z) :
  In i l -> In j l -> i <> j -> (2 <= length l)%nat.
Proof.
  intros Hi Hj Hne. destruct l as [|x [|y rest]].
  - destruct Hi.
  - destruct Hi as [<-|[]]. destruct Hj as [<-|[]]. congruence.
  - simpl. lia.
Qed.

Lemma base_bits_lor_l (a b i : Z) :
  In i (base_bits a) -> In i (base_bits (Z.lor a b)).
Proof.
  unfold base_bits. rewrite !set_bits_In, Z.lor_spec.
  intros [Hr ->]. split; [exact Hr|reflexivity].
Qed.

Lemma two_base_bits (a b i j : Z) :
  base_bits a = [i] -> base_bits b = [j] -> i <> j ->
  (2 <= length (base_bits (Tags_or a b)))%nat.
Proof.
  intros Ha Hb Hne. unfold Tags_or.
  apply (two_members_length _ i j); [| |exact Hne].
  - apply base_bits_lor_l. rewrite Ha. left. reflexivity.
  - rewrite Z.lor_comm. apply base_bits_lor_l. rewrite Hb. left. reflexivity.
Qed.

Lemma at_most_one_base_false (value : Z) :
  (2 <= length (base_bits value))%nat -> at_most_one_base value = false.
Proof.
  intros H. destruct (at_most_one_base value) eqn:E; [|reflexivity].
  apply at_most_one_base_spec in E. unfold at_most_one_base_bit in E. lia.
Qed.

Lemma call_with_select_viable (t : Target) (declared : list (Z * Z))
    (a : TagArg) (f : Z * Z) :
  call_with_select t declared a = Some f ->
  exists P, priority_of t a = Some P /\ In f declared /\ viable a P f = true.
Proof.
  unfold call_with_select. destruct (priority_of t a) as [P|]; [|discriminate].
  intros Hfind. apply find_some in Hfind as [Hin _].
  apply filter_In in Hin as [Hin Hv]. exists P. auto.
Qed.

(** C6, as the code has it.  [operator|] composes two sets with different
    base bits without any check and returns a set with both base bits, which
    [Features] takes as it is and [CORRADE_CPU_DECLARE] accepts as the
    declaration of an overload.  The set is rejected where it is selected or
    converted: [priority], when it is called, fails its assertion on it, and
    no conversion of [Tags] to or from it is allowed, so no call resolves to
    an overload declared for it. *)
Theorem C6_two_base_bits_rejected_when_bound (t : Target) (a b i j : Z) :
  base_bits a = [i] -> base_bits b = [j] -> i <> j ->
  (2 <= length (base_bits (Tags_or a b)))%nat /\
  _data (Features_of_tags (Tags_or a b)) = Z.lor a b /\
  priority t (Tags_or a b) = None /\
  CORRADE_CPU_DECLARE t (Combined (Tags_or a b))
  = (Z.lor a b, priority_type t (Z.lor a b)) /\
  (forall x, IsTagConversionAllowed (Tags_or a b) x = false /\
             IsTagConversionAllowed x (Tags_or a b) = false /\
             IsSingleTagConversionAllowed (Tags_or a b) x = false) /\
  (forall declared selected f,
      call_with_select t declared selected = Some f ->
      fst f <> Tags_or a b).
Proof.
  intros Ha Hb Hne.
  pose proof (two_base_bits a b i j Ha Hb Hne) as Htwo.
  pose proof (at_most_one_base_false _ Htwo) as Hrej.
  split; [exact Htwo|]. split; [reflexivity|].
  assert (Hp : priority t (Tags_or a b) = None)
    by (unfold priority; rewrite Hrej; reflexivity).
  split; [exact Hp|]. split; [reflexivity|]. split.
  - intros x. unfold IsTagConversionAllowed, IsSingleTagConversionAllowed.
    rewrite Hrej. cbn [andb]. rewrite andb_false_r. auto.
  - intros declared selected f Hcall Hf.
    apply call_with_select_viable in Hcall as (P & HP & _ & Hv).
    unfold viable in Hv. apply andb_prop in Hv as [Hconv _].
    rewrite Hf in Hconv. destruct selected as [T|otherValue];
      cbn [converts_to priority_of] in *.
    + unfold IsSingleTagConversionAllowed in Hconv.
      rewrite Hrej in Hconv. discriminate.
    + apply orb_prop in Hconv as [Heq|Hconv].
      * apply Z.eqb_eq in Heq. rewrite Heq, Hp in HP. discriminate.
      * unfold IsTagConversionAllowed in Hconv.
        rewrite Hrej in Hconv. discriminate.
Qed.

Lemma C6_witness :
  priority X86 (Tags_or (Index Sse2) (Index Avx2)) = None.
Proof.
  refine (proj1 (proj2 (proj2
    (C6_two_base_bits_rejected_when_bound X86 (Index Sse2) (Index Avx2) 0 6
       _ _ _)))).
  - reflexivity.
  - reflexivity.
  - lia.
Defined.

(** [Cpu::Sse2|Cpu::Avx2] is accepted by [operator|] and has two base
    bits. *)
Lemma C6_counterexample :
  ~ composition_keeps_one_base (Index Sse2) (Index Avx2).
Proof.
  unfold composition_keeps_one_base, at_most_one_base_bit.
  vm_compute. intros H. apply le_S_n in H. inversion H.
Qed.

(** ** Bit layout *)

Lemma land_lor_closed (m a b : Z) :
  Z.land a m = a -> Z.land b m = b -> Z.land (Z.lor a b) m = Z.lor a b.
Proof.
  intros Ha Hb. rewrite Z.land_lor_distr_l, Ha, Hb. reflexivity.
Qed.

Lemma ifdef_closed (m : Z) (M : bool) (T : Tag) :
  Z.land (Index T) m = Index T -> Z.land (ifdef M (Index T)) m = ifdef M (Index T).
Proof. intros H. destruct M; [exact H|reflexivity]. Qed.

Lemma compiledFeatures_within_target (c : BuildConfig) :
  Z.land (_data (compiledFeatures c)) (union_of (target_tags (target c)))
  = _data (compiledFeatures c).
Proof.
  unfold compiledFeatures. cbn [_data].
  destruct (target c);
    repeat first [ reflexivity
                 | apply land_lor_closed
                 | apply ifdef_closed ].
Qed.

Lemma IsTagConversionAllowed_valid (value otherValue : Z) :
  IsTagConversionAllowed value otherValue = true ->
  at_most_one_base_bit value /\ at_most_one_base_bit otherValue.
Proof.
  unfold IsTagConversionAllowed. rewrite !andb_true_iff.
  intros [[[Hv Ho] _] _]. split; apply at_most_one_base_spec; assumption.
Qed.

Lemma compiledFeatures_enabled (c : BuildConfig) :
  _data (compiledFeatures c)
  = union_of (filter (enabled c) (target_tags (target c))) /\
  length (base_bits (_data (compiledFeatures c)))
  = length (filter (enabled c) (base_tags (target c))).
Proof.
  destruct c as [t s2 s3 ss3 s41 s42 pop lz avx fma f16 avx2
                   neon nfma nfp16 simd msvc gcc apple android linux api].
  unfold compiledFeatures, enabled.
  cbn [target _data CORRADE_TARGET_SSE2 CORRADE_TARGET_SSE3
       CORRADE_TARGET_SSSE3 CORRADE_TARGET_SSE41 CORRADE_TARGET_SSE42
       CORRADE_TARGET_POPCNT CORRADE_TARGET_LZCNT CORRADE_TARGET_AVX
       CORRADE_TARGET_AVX_FMA CORRADE_TARGET_AVX_F16C CORRADE_TARGET_AVX2
       CORRADE_TARGET_NEON CORRADE_TARGET_NEON_FMA CORRADE_TARGET_NEON_FP16
       CORRADE_TARGET_SIMD128].
  destruct t.
  - destruct s2, s3, ss3, s41, s42, pop, lz, avx, fma, f16, avx2;
      split; reflexivity.
  - destruct neon, nfma, nfp16; split; reflexivity.
  - destruct simd; split; reflexivity.
  - split; reflexivity.
Qed.

(** C9, as the code has it.  The base tags of a target occupy the bits from
    bit 0 on and its extra tags the bits from bit 16 on, one bit each and
    without gaps.  Every tag constant, every combination that [priority]
    accepts when it is called, and both sides of an allowed [Tags]
    conversion have no or one base bit.  [compiledFeatures()], which
    [runtimeFeatures()] returns where nothing is probed, is the union of the
    tags of the target whose symbol is defined and for which it has an
    operand, which are all but [Avx512f]; it has one base bit for each such
    base tag, so several when several tiers are enabled. *)
Theorem C9_bit_layout (t : Target) (c : BuildConfig) (value otherValue : Z) :
  map Index (base_tags t)
  = map (fun n => 2 ^ Z.of_nat n) (seq 0 (length (base_tags t))) /\
  map Index (extra_tags t)
  = map (fun n => 2 ^ (ExtraTagBitOffset + Z.of_nat n))
        (seq 0 (Z.to_nat (ExtraTagCount t))) /\
  (forall T, at_most_one_base_bit (Index T)) /\
  (forall p, priority t value = Some p -> at_most_one_base_bit value) /\
  (IsTagConversionAllowed value otherValue = true ->
   at_most_one_base_bit value /\ at_most_one_base_bit otherValue) /\
  _data (compiledFeatures c)
  = union_of (filter (enabled c) (target_tags (target c))) /\
  length (base_bits (_data (compiledFeatures c)))
  = length (filter (enabled c) (base_tags (target c))) /\
  (forall probed, runtime_detection_compiled_in c = false ->
                  runtimeFeatures c probed = compiledFeatures c).
Proof.
  split; [destruct t; reflexivity|].
  split; [destruct t; reflexivity|].
  split; [intros T; apply at_most_one_base_spec, Index_at_most_one_base|].
  split; [intros p Hp; apply priority_inv in Hp; tauto|].
  split; [apply IsTagConversionAllowed_valid|].
  split; [apply compiledFeatures_enabled|].
  split; [apply compiledFeatures_enabled|].
  intros probed Hno. unfold runtimeFeatures. rewrite Hno. reflexivity.
Qed.

Lemma C9_witness :
  at_most_one_base_bit (Z.lor (Index Avx2) (Index Popcnt)).
Proof.
  exact (proj1 (proj2 (proj2 (proj2
    (C9_bit_layout X86 x86_sse3_gcc_build
       (Z.lor (Index Avx2) (Index Popcnt)) 0)))) 36 eq_refl).
Defined.

(** An x86-64 build with [-msse3] has [CORRADE_TARGET_SSE2] and
    [CORRADE_TARGET_SSE3] defined: [compiledFeatures()] has both base
    bits. *)
Lemma C9_counterexample : ~ compiled_set_has_one_base x86_sse3_gcc_build.
Proof.
  unfold compiled_set_has_one_base, at_most_one_base_bit.
  vm_compute. intros H. apply le_S_n in H. inversion H.
Qed.

(** ** [CORRADE_CPU_DISPATCHER_BASE] *)

Lemma Tag_eqb_spec (a b : Tag) : Tag_eqb a b = true <-> a = b.
Proof. destruct a, b; simpl; split; intros H; congruence. Qed.

Lemma declares_In (declared : list Tag) (T : Tag) :
  declares declared T = true <-> In T declared.
Proof.
  unfold declares. rewrite existsb_exists. split.
  - intros [x [Hin Heq]]. apply Tag_eqb_spec in Heq. subst. exact Hin.
  - intros Hin. exists T. split; [exact Hin|apply Tag_eqb_spec; reflexivity].
Qed.

Lemma land_pow2_cases (a k : Z) :
  0 <= k -> Z.land a (2 ^ k) = 0 \/ Z.land a (2 ^ k) = 2 ^ k.
Proof.
  intros Hk. destruct (Z.testbit a k) eqn:E; [right|left];
    apply Z.bits_inj'; intros n Hn;
    rewrite Z.land_spec, Z.pow2_bits_eqb by exact Hk.
  - destruct (Z.eqb_spec k n) as [->|Hne];
      [rewrite E; reflexivity|apply andb_false_r].
  - rewrite Z.bits_0. destruct (Z.eqb_spec k n) as [->|Hne];
      [rewrite E; reflexivity|apply andb_false_r].
Qed.

Lemma base_tag_single_bit (t : Target) (T : Tag) :
  In T (base_tags t) -> exists k, 0 <= k /\ Index T = 2 ^ k.
Proof.
  destruct t; simpl; intros H;
    repeat (destruct H as [<-|H];
            [eexists; split; [|cbn [Index]; rewrite Z.shiftl_1_l; reflexivity];
             lia|]);
    destruct H.
Qed.

Lemma safe_contained (features : Features) (T : Tag) :
  safe features T = contained features T.
Proof.
  unfold safe, contained, Features_le, Features_ge. cbn [_data Features_of_tag].
  rewrite Z.land_comm. reflexivity.
Qed.

Lemma test_is_contained (t : Target) (features : Features) (T : Tag) :
  In T (base_tags t) ->
  Features_bool (Features_and features (Features_of_tag T))
  = contained features T.
Proof.
  intros HT. destruct (base_tag_single_bit t T HT) as (k & Hk & HI).
  unfold Features_bool, Features_and, contained, Features_ge, truthy.
  cbn [_data Features_of_tag]. rewrite HI.
  assert (0 < 2 ^ k) by (apply Z.pow_pos_nonneg; lia).
  destruct (land_pow2_cases (_data features) k Hk) as [->| ->].
  - destruct (Z.eqb_spec 0 (2 ^ k)); [lia|reflexivity].
  - rewrite Z.eqb_refl. destruct (Z.eqb_spec (2 ^ k) 0); [lia|reflexivity].
Qed.

Lemma dispatcher_base_is_scan {R : Type} (t : Target) (function : Tag -> R)
    (features : Features) :
  CORRADE_CPU_DISPATCHER_BASE t function features
  = scan_base function features (rev (base_tags t)).
Proof. destruct t; reflexivity. Qed.

Lemma scan_base_find {R : Type} (function : Tag -> R) (features : Features)
    (candidates : list Tag) :
  scan_base function features candidates
  = function
      match find (fun B => Features_bool
                             (Features_and features (Features_of_tag B)))
                 candidates with
      | Some B => B
      | None => Scalar
      end.
Proof.
  induction candidates as [|B rest IH]; [reflexivity|].
  cbn [scan_base find].
  destruct (Features_bool (Features_and features (Features_of_tag B)));
    [reflexivity|exact IH].
Qed.

(** The candidates are tested from the highest index down, so the first one
    that passes has the highest index of all that pass. *)
Lemma first_found_is_highest (t : Target) (p : Tag -> bool) (B W : Tag) :
  find p (rev (base_tags t)) = Some B ->
  In W (base_tags t) -> p W = true -> Index W <= Index B.
Proof.
  destruct t; cbn [base_tags rev app find]; intros Hfind HW Hp;
    repeat match type of Hfind with
           | (if ?c then _ else _) = _ => destruct c eqn:?
           end;
    try discriminate; injection Hfind as <-;
    cbn [In] in HW;
    repeat (destruct HW as [<-|HW]; [try congruence; vm_compute; discriminate|]);
    destruct HW.
Qed.

Lemma find_split {A : Type} (q : A -> bool) (l : list A) (V : A) :
  find q l = Some V ->
  exists l1 l2, l = l1 ++ V :: l2 /\ forall x, In x l1 -> q x = false.
Proof.
  induction l as [|a rest IH]; [discriminate|]. cbn [find].
  destruct (q a) eqn:Ea.
  - intros [= ->]. exists [], rest. split; [reflexivity|intros x []].
  - intros H. destruct (IH H) as (l1 & l2 & -> & Hall).
    exists (a :: l1), l2. split; [reflexivity|].
    intros x [<-|Hx]; [exact Ea|apply Hall; exact Hx].
Qed.

Lemma find_exists {A : Type} (q : A -> bool) (l : list A) (x : A) :
  In x l -> q x = true -> exists y, find q l = Some y.
Proof.
  induction l as [|a rest IH]; intros Hin Hq; [destruct Hin|].
  cbn [find]. destruct (q a) eqn:Ea; [eexists; reflexivity|].
  destruct Hin as [->|Hin]; [congruence|exact (IH Hin Hq)].
Qed.

(** A tail of a chain of base classes is the chain of its first class. *)
Lemma upcasts_tail (n : nat) :
  forall T l1 V l2,
    upcasts_upto n T = l1 ++ V :: l2 ->
    exists m, V :: l2 = upcasts_upto m V.
Proof.
  induction n as [|d IH]; intros T l1 V l2 H.
  - destruct l1 as [|a [|b l1]]; cbn in H.
    + injection H as -> <-. exists 0%nat. reflexivity.
    + discriminate.
    + discriminate.
  - cbn [upcasts_upto] in H. destruct l1 as [|a l1].
    + injection H as -> H. exists (S d). cbn [upcasts_upto].
      rewrite H. reflexivity.
    + injection H as _ H. destruct (base_class T) as [B|].
      * exact (IH B l1 V l2 H).
      * destruct l1; discriminate.
Qed.

Lemma base_class_rank (T B : Tag) :
  base_class T = Some B -> baseRank (Index B) <= baseRank (Index T).
Proof. destruct T; intros [= <-]; vm_compute; discriminate. Qed.

Lemma upcasts_rank (n : nat) :
  forall T W, In W (upcasts_upto n T) ->
              baseRank (Index W) <= baseRank (Index T).
Proof.
  induction n as [|d IH]; intros T W Hin; cbn [upcasts_upto] in Hin.
  - destruct Hin as [<-|[]]. lia.
  - destruct Hin as [<-|Hin]; [lia|].
    destruct (base_class T) as [B|] eqn:E; [|destruct Hin].
    pose proof (base_class_rank T B E). pose proof (IH B W Hin). lia.
Qed.

Lemma lower_tags_are_upcasts (t : Target) (B W : Tag) :
  In B (base_tags t) -> In W (base_tags t) -> Index W <= Index B ->
  In W (upcasts B).
Proof.
  destruct t; cbn [base_tags In]; intros HB HW Hle;
    repeat (destruct HB as [<-|HB]; [|try (destruct HB; fail)]);
    repeat (destruct HW as [<-|HW]; [|try (destruct HW; fail)]);
    first [ exfalso; vm_compute in Hle; apply Hle; reflexivity
          | vm_compute; tauto ].
Qed.

Lemma Scalar_in_upcasts (t : Target) (B : Tag) :
  In B (Scalar :: base_tags t) -> In Scalar (upcasts B).
Proof.
  destruct t; cbn [base_tags In]; intros HB;
    repeat (destruct HB as [<-|HB]; [vm_compute; tauto|]); destruct HB.
Qed.

Lemma base_class_in_target (t : Target) (T B : Tag) :
  In T (Scalar :: base_tags t) -> base_class T = Some B ->
  In B (Scalar :: base_tags t).
Proof.
  destruct t; cbn [base_tags In]; intros HT;
    repeat (destruct HT as [<-|HT];
            [intros [= <-]; tauto|]); destruct HT.
Qed.

Lemma priority_tag_base (t : Target) (T : Tag) :
  In T (Scalar :: base_tags t) ->
  priority_tag t T = baseRank (Index T) * (ExtraTagCount t + 1).
Proof.
  destruct t; cbn [base_tags In]; intros HT;
    repeat (destruct HT as [<-|HT]; [reflexivity|]); destruct HT.
Qed.

Lemma safe_Scalar (features : Features) : safe features Scalar = true.
Proof. reflexivity. Qed.

Lemma upcasts_safe (t : Target) (features : Features) :
  cumulative t features ->
  forall n T, In T (Scalar :: base_tags t) -> safe features T = true ->
  forall W, In W (upcasts_upto n T) -> safe features W = true.
Proof.
  intros Hcum. induction n as [|d IH]; intros T HT Hs W Hin;
    cbn [upcasts_upto] in Hin.
  - destruct Hin as [<-|[]]. exact Hs.
  - destruct Hin as [<-|Hin]; [exact Hs|].
    destruct (base_class T) as [B|] eqn:E; [|destruct Hin].
    apply (IH B); [exact (base_class_in_target t T B HT E)| |exact Hin].
    destruct HT as [<-|HT]; [discriminate|].
    exact (Hcum T B HT Hs E).
Qed.

(** C3, as the code has it.  The dispatcher tests the base tags of the
    target from the highest down and calls [function] with the first one
    contained in the features, with [Scalar] when none is.  The overload that
    call resolves to is the nearest declared one at or below that tag: no
    safe declared variant has a higher priority, and it is safe itself when
    the features contain the lower tiers of every tier they contain. *)
Theorem C3_dispatcher_base (t : Target) (declared : list Tag)
    (features : Features) :
  In Scalar declared ->
  incl declared (Scalar :: base_tags t) ->
  exists B V,
    (forall (R : Type) (function : Tag -> R),
        CORRADE_CPU_DISPATCHER_BASE t function features = function B) /\
    highest_contained t features B /\
    dispatch_base t declared features = Some V /\
    In V declared /\ In V (upcasts B) /\
    (forall W, In W declared -> safe features W = true ->
               priority_tag t W <= priority_tag t V) /\
    (cumulative t features -> safe features V = true).
Proof.
  intros HScalar Hincl.
  set (p := fun B => Features_bool
                       (Features_and features (Features_of_tag B))).
  assert (Hp : forall T, In T (base_tags t) -> p T = contained features T)
    by (intros T HT; apply (test_is_contained t); exact HT).
  assert (Hscan : forall (R : Type) (function : Tag -> R),
             CORRADE_CPU_DISPATCHER_BASE t function features
             = function match find p (rev (base_tags t)) with
                        | Some B => B
                        | None => Scalar
                        end)
    by (intros R function; rewrite dispatcher_base_is_scan;
        apply scan_base_find).
  assert (HE : 0 <= ExtraTagCount t) by (destruct t; cbn; lia).
  destruct (find p (rev (base_tags t))) as [B|] eqn:Hfind.
  - (* a base tag is contained *)
    apply find_some in Hfind as Hfound. destruct Hfound as [HBin HpB].
    apply in_rev in HBin.
    assert (HBt : In B (Scalar :: base_tags t)) by (right; exact HBin).
    destruct (find_exists (declares declared) (upcasts B) Scalar
                (Scalar_in_upcasts t B HBt)
                (proj2 (declares_In declared Scalar) HScalar)) as [V HV].
    exists B, V.
    apply find_some in HV as HVfound. destruct HVfound as [HVup HVdecl].
    apply declares_In in HVdecl.
    split; [exact Hscan|]. split.
    { left. split; [exact HBin|]. split; [rewrite <- Hp; assumption|].
      intros T HT Hlt. rewrite <- (Hp T HT).
      destruct (p T) eqn:E; [|reflexivity].
      pose proof (first_found_is_highest t p B T Hfind HT E). lia. }
    split; [unfold dispatch_base; rewrite Hscan; exact HV|].
    split; [exact HVdecl|]. split; [exact HVup|]. split.
    + intros W HW Hsafe.
      assert (HWup : In W (upcasts B)).
      { destruct (Hincl W HW) as [<-|HWt];
          [exact (Scalar_in_upcasts t B HBt)|].
        apply (lower_tags_are_upcasts t); [exact HBin|exact HWt|].
        apply (first_found_is_highest t p B W Hfind HWt).
        rewrite (Hp W HWt), <- safe_contained. exact Hsafe. }
      destruct (find_split _ _ _ HV) as (l1 & l2 & Hsplit & Hbefore).
      assert (HWtail : In W (V :: l2)).
      { rewrite Hsplit in HWup. apply in_app_or in HWup as [Hl1|Htail];
          [|exact Htail].
        apply Hbefore in Hl1.
        rewrite (proj2 (declares_In declared W) HW) in Hl1. discriminate. }
      destruct (upcasts_tail 8 B l1 V l2 Hsplit) as [m Hm].
      rewrite Hm in HWtail. apply upcasts_rank in HWtail.
      rewrite (priority_tag_base t W (Hincl W HW)),
        (priority_tag_base t V (Hincl V HVdecl)).
      nia.
    + intros Hcum. apply (upcasts_safe t features Hcum 8 B HBt);
        [|exact HVup].
      rewrite safe_contained, <- (Hp B HBin). exact HpB.
  - (* no base tag is contained *)
    exists Scalar, Scalar.
    assert (Hnone : forall T, In T (base_tags t) -> contained features T = false).
    { intros T HT. rewrite <- (Hp T HT).
      apply (find_none _ _ Hfind). apply in_rev in HT. exact HT. }
    assert (HV : call_with_tag declared Scalar = Some Scalar).
    { unfold call_with_tag. cbn [upcasts upcasts_upto base_class find].
      rewrite (proj2 (declares_In declared Scalar) HScalar). reflexivity. }
    split; [exact Hscan|]. split; [right; split; [reflexivity|exact Hnone]|].
    split; [unfold dispatch_base; rewrite Hscan; exact HV|].
    split; [exact HScalar|]. split; [left; reflexivity|]. split.
    + intros W HW Hsafe. destruct (Hincl W HW) as [<-|HWt]; [lia|].
      rewrite safe_contained, (Hnone W HWt) in Hsafe. discriminate.
    + intros _. apply safe_Scalar.
Qed.

Lemma C3_witness :
  exists B V,
    (forall (R : Type) (function : Tag -> R),
        CORRADE_CPU_DISPATCHER_BASE X86 function
          (Features_or (Features_of_tag Sse2) (Features_of_tag Sse3))
        = function B) /\
    dispatch_base X86 [Scalar; Sse2]
      (Features_or (Features_of_tag Sse2) (Features_of_tag Sse3)) = Some V.
Proof.
  destruct (C3_dispatcher_base X86 [Scalar; Sse2]
              (Features_or (Features_of_tag Sse2) (Features_of_tag Sse3)))
    as (B & V & H1 & _ & H3 & _).
  - left. reflexivity.
  - intros x [<-|[<-|[]]]; cbn; tauto.
  - exists B, V. split; assumption.
Defined.

(** With overloads for [Scalar] and [Sse2] and the features of the single
    tag [Avx2], the dispatcher calls [function(Cpu::Avx2)], which is the
    [Sse2] overload, and [Sse2] is not a subset of the features. *)
Lemma C3_counterexample :
  ~ selects_safe_maximum X86 [Scalar; Sse2] (Features_of_tag Avx2).
Proof.
  intros (V & Hd & Hs & _).
  assert (HV : dispatch_base X86 [Scalar; Sse2] (Features_of_tag Avx2)
               = Some Sse2) by reflexivity.
  rewrite HV in Hd. injection Hd as <-. discriminate Hs.
Qed.

(** ** [CORRADE_CPU_DISPATCHER] with one extra tag *)

Lemma extra_tag_single_bit (t : Target) (X : Tag) :
  In X (extra_tags t) -> exists k, 0 <= k /\ Index X = 2 ^ k.
Proof.
  destruct t; simpl; intros H;
    repeat (destruct H as [<-|H];
            [eexists; split; [|cbn [Index]; rewrite Z.shiftl_1_l; reflexivity];
             unfold ExtraTagBitOffset; lia|]);
    destruct H.
Qed.

Lemma extra_test_is_contained (t : Target) (features : Features) (X : Tag) :
  In X (extra_tags t) ->
  Features_bool (Features_and features (Features_of_tag X))
  = contained features X.
Proof.
  intros HX. destruct (extra_tag_single_bit t X HX) as (k & Hk & HI).
  unfold Features_bool, Features_and, contained, Features_ge, truthy.
  cbn [_data Features_of_tag]. rewrite HI.
  assert (0 < 2 ^ k) by (apply Z.pow_pos_nonneg; lia).
  destruct (land_pow2_cases (_data features) k Hk) as [->| ->].
  - destruct (Z.eqb_spec 0 (2 ^ k)); [lia|reflexivity].
  - rewrite Z.eqb_refl. destruct (Z.eqb_spec (2 ^ k) 0); [lia|reflexivity].
Qed.

Lemma scan_extra_calls {R : Type} (function : TagArg -> option R)
    (features : Features) (value : Z) (candidates : list Tag) :
  exists B, In B (Scalar :: candidates) /\
            scan_extra function features value candidates
            = function (Combined (Z.lor (Index B) value)).
Proof.
  induction candidates as [|C rest IH]; cbn [scan_extra].
  - exists Scalar. split; [left; reflexivity|reflexivity].
  - destruct (Features_ge features (Features_of_tags (Z.lor (Index C) value))).
    + exists C. split; [right; left; reflexivity|reflexivity].
    + destruct IH as (B & [<-|HB] & Heq).
      * exists Scalar. split; [left; reflexivity|exact Heq].
      * exists B. split; [right; right; exact HB|exact Heq].
Qed.

Lemma implementation_calls {R : Type} (t : Target)
    (function : TagArg -> option R) (features : Features) (value : Z) :
  exists B, In B (Scalar :: base_tags t) /\
            _CORRADE_CPU_DISPATCHER_IMPLEMENTATION t function features value
            = function (Combined (Z.lor (Index B) value)).
Proof.
  unfold _CORRADE_CPU_DISPATCHER_IMPLEMENTATION.
  destruct t;
    match goal with
    | |- context [scan_extra _ _ _ ?l] =>
        destruct (scan_extra_calls function features value l)
          as (B & HB & Heq)
    end;
    exists B; (split; [|exact Heq]); cbn [base_tags In] in *; tauto.
Qed.

(** Without the extra tag in the call, only the [Scalar] overload is
    viable, whatever base tag the cascade stops at. *)
Lemma scalar_overload_without_extra (t : Target) (H X B : Tag) :
  In H (base_tags t) -> In X (extra_tags t) ->
  In B (Scalar :: base_tags t) ->
  call_with_select t [(Index Scalar, 0); (Z.lor (Index H) (Index X),
                        baseRank (Index H) * (ExtraTagCount t + 1) + 1)]
    (Combined (Z.lor (Index B) 0))
  = Some (Index Scalar, 0).
Proof.
  destruct t; cbn [base_tags extra_tags In]; intros HH HX HB;
    try (destruct HX; fail);
    repeat (destruct HH as [<-|HH]; [|try (destruct HH; fail)]);
    repeat (destruct HX as [<-|HX]; [|try (destruct HX; fail)]);
    repeat (destruct HB as [<-|HB]; [|try (destruct HB; fail)]);
    reflexivity.
Qed.

Lemma declare_scenario (t : Target) (H X : Tag) :
  In H (base_tags t) -> In X (extra_tags t) ->
  declare_all t [OneTag Scalar; Combined (Z.lor (Index H) (Index X))]
  = [(Index Scalar, 0);
     (Z.lor (Index H) (Index X),
      baseRank (Index H) * (ExtraTagCount t + 1) + 1)].
Proof.
  destruct t; cbn [base_tags extra_tags In]; intros HH HX;
    try (destruct HX; fail);
    repeat (destruct HH as [<-|HH]; [|try (destruct HH; fail)]);
    repeat (destruct HX as [<-|HX]; [|try (destruct HX; fail)]);
    reflexivity.
Qed.

(** C4.  With the overloads [CORRADE_CPU_DECLARE(Cpu::Scalar)] and
    [CORRADE_CPU_DECLARE(HighTier|ExtraX)] and a dispatcher that lists
    [ExtraX], the two overloads have the priorities 0 and the one of
    [HighTier] plus one, and the dispatcher builds; for the features of [HighTier] alone,
    of which [HighTier|ExtraX] is not a subset, and for any features without
    [ExtraX], it returns the [Scalar] overload; for the features
    [HighTier|ExtraX] it returns the [HighTier|ExtraX] overload. *)
Theorem C4_scalar_and_extra_scenario (t : Target) (H X : Tag) :
  In H (base_tags t) -> In X (extra_tags t) ->
  declare_all t [OneTag Scalar; Combined (Z.lor (Index H) (Index X))]
  = [(Index Scalar, 0);
     (Z.lor (Index H) (Index X),
      baseRank (Index H) * (ExtraTagCount t + 1) + 1)] /\
  dispatcher_builds t
    [OneTag Scalar; Combined (Z.lor (Index H) (Index X))] [X] = true /\
  Features_le (Features_of_tags (Z.lor (Index H) (Index X)))
              (Features_of_tag H) = false /\
  dispatch t [OneTag Scalar; Combined (Z.lor (Index H) (Index X))] [X]
    (Features_of_tag H)
  = Some (Index Scalar, 0) /\
  (forall features,
      contained features X = false ->
      dispatch t [OneTag Scalar; Combined (Z.lor (Index H) (Index X))] [X]
        features
      = Some (Index Scalar, 0)) /\
  dispatch t [OneTag Scalar; Combined (Z.lor (Index H) (Index X))] [X]
    (Features_of_tags (Z.lor (Index H) (Index X)))
  = Some (Z.lor (Index H) (Index X),
          baseRank (Index H) * (ExtraTagCount t + 1) + 1).
Proof.
  intros HH HX.
  assert (Hgen : forall features,
             contained features X = false ->
             dispatch t [OneTag Scalar; Combined (Z.lor (Index H) (Index X))]
               [X] features
             = Some (Index Scalar, 0)).
  { intros features Hno. unfold dispatch.
    rewrite (declare_scenario t H X HH HX).
    unfold _CORRADE_CPU_DISPATCHERn. cbn [Internal].
    assert (Hbase : truthy (Z.land (tags (OneTag X)) BaseTagMask) = false)
      by (destruct t; cbn [extra_tags In] in HX; try (destruct HX; fail);
          repeat (destruct HX as [<-|HX]; [reflexivity|]); destruct HX).
    rewrite Hbase, (extra_test_is_contained t features X HX), Hno.
    match goal with
    | |- _CORRADE_CPU_DISPATCHER_IMPLEMENTATION t ?f features 0 = _ =>
        destruct (implementation_calls t f features 0) as (B & HB & ->)
    end.
    exact (scalar_overload_without_extra t H X B HH HX HB). }
  split; [exact (declare_scenario t H X HH HX)|].
  split; [|split; [|split; [|split; [exact Hgen|]]]];
    destruct t; cbn [base_tags extra_tags In] in HH, HX;
    try (destruct HX; fail);
    repeat (destruct HH as [<-|HH]; [|try (destruct HH; fail)]);
    repeat (destruct HX as [<-|HX]; [|try (destruct HX; fail)]);
    reflexivity.
Qed.

Lemma C4_witness :
  dispatch X86 [OneTag Scalar; Combined (Z.lor (Index Avx2) (Index Popcnt))]
    [Popcnt] (Features_of_tag Avx2)
  = Some (0, 0) /\
  dispatch X86 [OneTag Scalar; Combined (Z.lor (Index Avx2) (Index Popcnt))]
    [Popcnt] (Features_of_tags (Z.lor (Index Avx2) (Index Popcnt)))
  = Some (Z.lor (Index Avx2) (Index Popcnt), 36).
Proof.
  assert (HH : In Avx2 (base_tags X86)) by (cbn; tauto).
  assert (HX : In Popcnt (extra_tags X86)) by (cbn; tauto).
  pose proof (C4_scalar_and_extra_scenario X86 Avx2 Popcnt HH HX) as T.
  split; [exact (proj1 (proj2 (proj2 (proj2 T))))|].
  exact (proj2 (proj2 (proj2 (proj2 (proj2 T))))).
Defined.

(** * Further properties of the header *)

(** ** [Features]: order, complement, symmetric difference *)

Lemma testbit_unot (x n : Z) :
  0 <= n -> Z.testbit (unot x) n = negb (Z.testbit x n) && (n <? 32).
Proof.
  intros Hn. unfold unot, wrap32. rewrite <- Z.land_ones by lia.
  rewrite Z.land_spec, Z.lnot_spec, Z.testbit_ones by lia.
  destruct (Z.leb_spec 0 n); [reflexivity|lia].
Qed.

Lemma testbit_uint_high (x n : Z) :
  uint_range x -> 32 <= n -> Z.testbit x n = false.
Proof.
  intros [Hlo Hhi] Hn. destruct (Z.eq_dec x 0) as [->|Hne];
    [apply Z.bits_0|].
  apply Z.bits_above_log2; [exact Hlo|].
  assert (Z.log2 x < 32) by (apply Z.log2_lt_pow2; lia). lia.
Qed.

(** The subset test of [operator<=] is a partial order on feature sets, and
    [operator>=] is the same test with the operands exchanged. *)
Theorem Features_subset_partial_order (A B C : Features) :
  Features_le A A = true /\
  (Features_le A B = true -> Features_le B A = true ->
   Features_eq A B = true) /\
  (Features_le A B = true -> Features_le B C = true ->
   Features_le A C = true) /\
  Features_ge B A = Features_le A B.
Proof.
  destruct A as [a], B as [b], C as [c].
  unfold Features_le, Features_ge, Features_eq. cbn [_data].
  split; [apply Z.eqb_eq, Z.land_diag|]. split; [|split].
  - rewrite !Z.eqb_eq. intros Hab Hba. rewrite <- Hab at 1.
    rewrite Z.land_comm. exact Hba.
  - rewrite !Z.eqb_eq. intros Hab Hbc.
    rewrite <- Hab at 1. rewrite <- Z.land_assoc, Hbc. exact Hab.
  - rewrite Z.land_comm. reflexivity.
Qed.

Lemma Features_subset_partial_order_witness :
  Features_le (Features_of_tag Sse2)
    (Features_or (Features_of_tag Sse2)
       (Features_or (Features_of_tag Sse3) (Features_of_tag Popcnt))) = true.
Proof.
  refine (proj1 (proj2 (proj2
    (Features_subset_partial_order (Features_of_tag Sse2)
       (Features_or (Features_of_tag Sse2) (Features_of_tag Sse3))
       (Features_or (Features_of_tag Sse2)
          (Features_or (Features_of_tag Sse3) (Features_of_tag Popcnt))))))
    _ _); reflexivity.
Defined.

(** A set and its complement share no feature and together are all 32 bits;
    the complement of a union is the intersection of the complements and the
    other way round. *)
Theorem Features_complement_laws (A B : Features) :
  uint_range (_data A) ->
  Features_bool (Features_and A (Features_not A)) = false /\
  Features_or A (Features_not A) = mkFeatures 0xffffffff /\
  Features_not (Features_or A B)
  = Features_and (Features_not A) (Features_not B) /\
  Features_not (Features_and A B)
  = Features_or (Features_not A) (Features_not B).
Proof.
  intros HA. destruct A as [a], B as [b].
  unfold Features_bool, Features_and, Features_or, Features_not, truthy.
  cbn [_data] in *.
  assert (H1 : Z.land a (unot a) = 0).
  { apply Z.bits_inj'. intros n Hn.
    rewrite Z.land_spec, testbit_unot, Z.bits_0 by exact Hn.
    destruct (Z.testbit a n); reflexivity. }
  assert (H2 : Z.lor a (unot a) = 0xffffffff).
  { apply Z.bits_inj'. intros n Hn.
    change 0xffffffff with (Z.ones 32).
    rewrite Z.lor_spec, testbit_unot, Z.testbit_ones by lia.
    destruct (Z.leb_spec 0 n); [|lia]. cbn [andb].
    destruct (Z.ltb_spec n 32).
    - destruct (Z.testbit a n); reflexivity.
    - rewrite (testbit_uint_high a n HA) by lia. reflexivity. }
  rewrite H1, H2. split; [reflexivity|]. split; [reflexivity|].
  split; f_equal; apply Z.bits_inj'; intros n Hn;
    rewrite ?Z.land_spec, ?Z.lor_spec, !testbit_unot,
      ?Z.land_spec, ?Z.lor_spec by exact Hn;
    destruct (Z.testbit a n), (Z.testbit b n), (n <? 32); reflexivity.
Qed.

Lemma Features_complement_laws_witness :
  Features_or (Features_of_tag Avx2) (Features_not (Features_of_tag Avx2))
  = mkFeatures 0xffffffff.
Proof.
  refine (proj1 (proj2
    (Features_complement_laws (Features_of_tag Avx2) (Features_of_tag Sse2)
       _))).
  unfold uint_range. cbn. lia.
Defined.

(** [operator^] is the symmetric difference: it removes what both sets
    have, a set xored with itself is [Scalar], and xoring twice with the same
    set gives the first set back. *)
Theorem Features_xor_laws (A B : Features) :
  uint_range (_data A) -> uint_range (_data B) ->
  Features_xor A B
  = Features_and (Features_or A B) (Features_not (Features_and A B)) /\
  Features_bool (Features_xor A A) = false /\
  Features_xor (Features_xor A B) B = A.
Proof.
  intros HA HB. destruct A as [a], B as [b].
  unfold Features_bool, Features_xor, Features_and, Features_or,
    Features_not, truthy. cbn [_data] in *.
  split; [|split].
  - f_equal. apply Z.bits_inj'. intros n Hn.
    rewrite Z.lxor_spec, Z.land_spec, Z.lor_spec, testbit_unot, Z.land_spec
      by exact Hn.
    destruct (Z.ltb_spec n 32).
    + destruct (Z.testbit a n), (Z.testbit b n); reflexivity.
    + rewrite (testbit_uint_high a n HA), (testbit_uint_high b n HB) by lia.
      reflexivity.
  - rewrite Z.lxor_nilpotent. reflexivity.
  - rewrite Z.lxor_assoc, Z.lxor_nilpotent, Z.lxor_0_r. reflexivity.
Qed.

Lemma Features_xor_laws_witness :
  Features_xor (Features_xor (Features_of_tag Avx2) (Features_of_tag Popcnt))
               (Features_of_tag Popcnt)
  = Features_of_tag Avx2.
Proof.
  refine (proj2 (proj2
    (Features_xor_laws (Features_of_tag Avx2) (Features_of_tag Popcnt) _ _)));
    unfold uint_range; cbn; lia.
Defined.

(** ** [BitCount] and [BitIndex] stay within [unsigned short] *)

Lemma BitCount_fits_check :
  forall_from (Z.to_nat 65536) 0
    (fun A =>
       forallb (fun e => (0 <=? e) && (e <? 65536))
         [BitCount_B0 A; BitCount_B1 A; BitCount_C A; BitCount_D0 A;
          BitCount_D2 A; BitCount_E A; BitCount_F0 A; BitCount_F4 A;
          BitCount_G A; BitCount_H0 A; BitCount_H8 A; BitCount A]
       && (BitCount A <=? 16))
  = true.
Proof. vm_compute. reflexivity. Qed.

(** For every 16-bit [A] each enumerator of [BitCount<A>] is a value of the
    enumeration's [unsigned short], so no initialiser narrows, and the
    count is at most 16; [BitIndex<A>] ends after at most 16 instantiations
    with a value of at most 16. *)
Theorem BitCount_BitIndex_fit (A : Z) :
  ushort_range A ->
  Forall ushort_range
    [BitCount_B0 A; BitCount_B1 A; BitCount_C A; BitCount_D0 A;
     BitCount_D2 A; BitCount_E A; BitCount_F0 A; BitCount_F4 A;
     BitCount_G A; BitCount_H0 A; BitCount_H8 A; BitCount A] /\
  0 <= BitCount A <= 16 /\
  0 <= BitIndex A <= 16.
Proof.
  intros HA.
  pose proof (forall_ushort _ BitCount_fits_check A HA) as H. cbv beta in H.
  apply andb_prop in H as [Hall H16]. apply Z.leb_le in H16.
  rewrite forallb_forall in Hall.
  assert (HF : Forall ushort_range
    [BitCount_B0 A; BitCount_B1 A; BitCount_C A; BitCount_D0 A;
     BitCount_D2 A; BitCount_E A; BitCount_F0 A; BitCount_F4 A;
     BitCount_G A; BitCount_H0 A; BitCount_H8 A; BitCount A]).
  { apply Forall_forall. intros e He. apply Hall in He.
    apply andb_prop in He as [H0 H1]. apply Z.leb_le in H0.
    apply Z.ltb_lt in H1. unfold ushort_range.
    change (2 ^ 16) with 65536. lia. }
  split; [exact HF|]. split.
  - rewrite Forall_forall in HF.
    destruct (HF (BitCount A)) as [Hlo _]; [cbn; tauto|]. lia.
  - destruct HA as [Hlo Hhi]. destruct (Z.eq_dec A 0) as [->|Hne].
    + rewrite BitIndex_0. lia.
    + rewrite BitIndex_log2 by lia.
      assert (Z.log2 A < 16) by (apply Z.log2_lt_pow2; lia).
      pose proof (Z.log2_nonneg A). lia.
Qed.

Lemma BitCount_BitIndex_fit_witness :
  0 <= BitCount 0xffff <= 16 /\ 0 <= BitIndex 0xffff <= 16.
Proof.
  refine (proj2 (BitCount_BitIndex_fit 0xffff _)).
  unfold ushort_range. lia.
Defined.

(** ** Priority: ties, and agreement with the conversions *)

Lemma priority_uint (t : Target) (value p : Z) :
  uint_range value -> priority t value = Some p ->
  at_most_one_base_bit value /\
  0 <= extraRank value <= ExtraTagCount t /\
  p = baseRank value * (ExtraTagCount t + 1) + extraRank value.
Proof.
  intros Hv Hp. apply priority_inv in Hp as (Hone & Hext & ->).
  pose proof (accepted_extraRank_bound t value Hext) as Hb.
  rewrite extra_part, extraRank_BitCount in * by exact Hv. auto.
Qed.

(** Two sets that [priority] gives the same index have the same base rank
    and the same number of extra tags: overloads can tie only on different
    extra tags of equal count. *)
Theorem priority_tie (t : Target) (A B p : Z) :
  uint_range A -> uint_range B ->
  priority t A = Some p -> priority t B = Some p ->
  baseRank A = baseRank B /\ extraRank A = extraRank B.
Proof.
  intros HA HB HpA HpB.
  apply (priority_uint t A p HA) in HpA as (_ & HeA & EA).
  apply (priority_uint t B p HB) in HpB as (_ & HeB & EB).
  assert (Hr : baseRank A = baseRank B) by nia.
  split; [exact Hr|]. rewrite Hr in EA. lia.
Qed.

Lemma priority_tie_witness :
  baseRank (Z.lor (Index Sse41) (Index Popcnt))
  = baseRank (Z.lor (Index Sse41) (Index Lzcnt)) /\
  extraRank (Z.lor (Index Sse41) (Index Popcnt))
  = extraRank (Z.lor (Index Sse41) (Index Lzcnt)).
Proof.
  refine (priority_tie X86 (Z.lor (Index Sse41) (Index Popcnt))
            (Z.lor (Index Sse41) (Index Lzcnt)) 21 _ _ _ _);
    try reflexivity; unfold uint_range; cbn; lia.
Defined.

Lemma set_bits_NoDup (v : Z) (n : nat) :
  forall from, NoDup (set_bits v from n).
Proof.
  induction n as [|k IH]; intros from; [constructor|].
  cbn [set_bits]. destruct (Z.testbit v from); [|apply IH].
  cbn [app]. constructor; [|apply IH].
  intros Hin. apply set_bits_In in Hin. lia.
Qed.

Lemma extra_subset_rank (a b : Z) :
  extra_subset a b -> extraRank a <= extraRank b.
Proof.
  intros Hincl. unfold extraRank. apply inj_le.
  apply NoDup_incl_length; [apply set_bits_NoDup|exact Hincl].
Qed.

Lemma conversion_shape (value otherValue : Z) :
  IsTagConversionAllowed value otherValue = true ->
  at_most_one_base_bit value /\ at_most_one_base_bit otherValue /\
  baseRank value <= baseRank otherValue /\ extra_subset value otherValue.
Proof.
  unfold IsTagConversionAllowed.
  rewrite !andb_true_iff, !at_most_one_base_spec, Z.geb_le, Z.eqb_eq,
    extra_subset_spec.
  intros [[[Hv Ho] Hb] He]. repeat split; try assumption.
  apply base_order_rank; assumption.
Qed.

(** The two parameters an overload gets from [CORRADE_CPU_DECLARE] agree:
    when [Tags<otherValue>] converts to [Tags<value>] and [priority] accepts
    both, the index of [value] is at most the index of [otherValue], so
    [Priority<priority(otherValue)>] converts to [Priority<priority(value)>]
    as well and the second parameter rules out no overload the first one
    admits. *)
Theorem conversion_lowers_priority (t : Target) (value otherValue p q : Z) :
  uint_range value -> uint_range otherValue ->
  IsTagConversionAllowed value otherValue = true ->
  priority t value = Some p -> priority t otherValue = Some q ->
  p <= q.
Proof.
  intros Hv Ho Hconv Hp Hq.
  apply conversion_shape in Hconv as (_ & _ & Hrank & Hextra).
  apply (priority_uint t value p Hv) in Hp as (_ & Hev & ->).
  apply (priority_uint t otherValue q Ho) in Hq as (_ & Heo & ->).
  pose proof (extra_subset_rank _ _ Hextra).
  pose proof (baseRank_nonneg value). nia.
Qed.

Lemma conversion_lowers_priority_witness : 21 <= 37.
Proof.
  refine (conversion_lowers_priority X86
            (Z.lor (Index Sse41) (Index Popcnt))
            (Z.lor (Index Avx2) (Z.lor (Index Popcnt) (Index Lzcnt)))
            21 37 _ _ _ _ _);
    try reflexivity; unfold uint_range; cbn; lia.
Defined.

(** ** The conversions of [Tags] as an order *)

Lemma testbit_BaseTagMask (n : Z) :
  0 <= n -> Z.testbit BaseTagMask n = (n <? 16).
Proof.
  intros Hn. rewrite BaseTagMask_ones, Z.testbit_ones by lia.
  destruct (Z.leb_spec 0 n); [reflexivity|lia].
Qed.

Lemma uint_split (a b : Z) :
  uint_range a -> uint_range b ->
  Z.land a BaseTagMask = Z.land b BaseTagMask ->
  Z.land a ExtraTagMask = Z.land b ExtraTagMask ->
  a = b.
Proof.
  intros Ha Hb Hbase Hextra. apply Z.bits_inj'. intros n Hn.
  apply (f_equal (fun z => Z.testbit z n)) in Hbase, Hextra.
  rewrite !Z.land_spec, testbit_BaseTagMask in Hbase by exact Hn.
  rewrite !Z.land_spec, testbit_ExtraTagMask in Hextra by exact Hn.
  destruct (Z.ltb_spec n 16).
  - rewrite !andb_true_r in Hbase. exact Hbase.
  - destruct (Z.ltb_spec n 32).
    + destruct (Z.leb_spec 16 n); [|lia].
      rewrite !andb_true_r in Hextra. exact Hextra.
    + rewrite (testbit_uint_high a n Ha), (testbit_uint_high b n Hb) by lia.
      reflexivity.
Qed.

(** Conversions between tag combinations compose and do not go in circles:
    every combination with at most one base tag converts to itself; if
    [Tags<B>] converts to [Tags<A>] and [Tags<C>] to [Tags<B>], then
    [Tags<C>] converts to [Tags<A>]; and two combinations that convert to
    each other are the same. *)
Theorem conversion_is_an_order (A B C : Z) :
  uint_range A -> uint_range B ->
  (at_most_one_base A = true -> IsTagConversionAllowed A A = true) /\
  (IsTagConversionAllowed A B = true -> IsTagConversionAllowed B C = true ->
   IsTagConversionAllowed A C = true) /\
  (IsTagConversionAllowed A B = true -> IsTagConversionAllowed B A = true ->
   A = B).
Proof.
  intros HA HB. unfold IsTagConversionAllowed. split; [|split].
  - intros ->. cbn [andb]. rewrite Z.land_diag, Z.eqb_refl, andb_true_r.
    apply Z.geb_le. lia.
  - rewrite !andb_true_iff, !Z.geb_le, !Z.eqb_eq.
    intros [[[HoA HoB] Hb1] He1] [[[_ HoC] Hb2] He2].
    repeat split; try assumption; [lia|].
    apply Z.bits_inj'. intros n Hn.
    apply (f_equal (fun z => Z.testbit z n)) in He1, He2.
    rewrite !Z.land_spec in *.
    destruct (Z.testbit A n), (Z.testbit B n), (Z.testbit C n),
      (Z.testbit ExtraTagMask n); cbn in *; congruence.
  - rewrite !andb_true_iff, !Z.geb_le, !Z.eqb_eq.
    intros [[_ Hb1] He1] [[_ Hb2] He2].
    apply uint_split; try assumption; [lia|].
    rewrite <- He1. rewrite (Z.land_comm B A). exact He2.
Qed.

Lemma conversion_is_an_order_witness :
  IsTagConversionAllowed (Index Sse2)
    (Z.lor (Index Avx2) (Index Popcnt)) = true.
Proof.
  refine (proj1 (proj2
    (conversion_is_an_order (Index Sse2) (Index Sse41)
       (Z.lor (Index Avx2) (Index Popcnt)) _ _)) _ _);
    try reflexivity; unfold uint_range; cbn; lia.
Defined.

(** ** The dispatchers of [CORRADE_CPU_DISPATCHER] *)

Lemma find_ext_in {A : Type} (p q : A -> bool) (l : list A) :
  (forall x, In x l -> p x = q x) -> find p l = find q l.
Proof.
  induction l as [|a rest IH]; intros Hext; [reflexivity|].
  cbn [find]. rewrite (Hext a (or_introl eq_refl)).
  rewrite IH; [reflexivity|]. intros x Hx. apply Hext. right. exact Hx.
Qed.

Lemma scan_select_find {R : Type} (function : TagArg -> option R)
    (features : Features) (candidates : list Tag) :
  scan_select function features candidates
  = function (OneTag match find (contained features) candidates with
                     | Some B => B
                     | None => Scalar
                     end).
Proof.
  induction candidates as [|B rest IH]; [reflexivity|].
  cbn [scan_select find]. unfold contained at 1.
  destruct (Features_ge features (Features_of_tag B));
    [reflexivity|exact IH].
Qed.

Lemma dispatcher0_is_scan {R : Type} (t : Target)
    (function : TagArg -> option R) (features : Features) :
  _CORRADE_CPU_DISPATCHER0 t function features
  = scan_select function features (rev (base_tags t)).
Proof. destruct t; reflexivity. Qed.

Lemma found_is_highest_contained (t : Target) (features : Features) :
  highest_contained t features
    match find (contained features) (rev (base_tags t)) with
    | Some B => B
    | None => Scalar
    end.
Proof.
  destruct (find (contained features) (rev (base_tags t))) as [B|] eqn:Hfind.
  - left. apply find_some in Hfind as Hfound. destruct Hfound as [HB Hc].
    apply in_rev in HB. split; [exact HB|]. split; [exact Hc|].
    intros T HT Hlt. destruct (contained features T) eqn:E; [|reflexivity].
    pose proof (first_found_is_highest t _ B T Hfind HT E). lia.
  - right. split; [reflexivity|]. intros T HT.
    apply (find_none _ _ Hfind). apply in_rev in HT. exact HT.
Qed.

(** [_CORRADE_CPU_DISPATCHER0] and [CORRADE_CPU_DISPATCHER_BASE] stop at the
    same tag for the same features, the highest base tag the features
    contain: the first calls [function(CORRADE_CPU_SELECT(B))] where the
    second calls [function(B)].  The tests [features >= B] of the one and
    [features & B] of the other agree on every base tag. *)
Theorem dispatcher0_and_base_stop_at_the_same_tag (t : Target)
    (features : Features) :
  exists B,
    highest_contained t features B /\
    (forall (R : Type) (function : Tag -> R),
        CORRADE_CPU_DISPATCHER_BASE t function features = function B) /\
    (forall (R : Type) (function : TagArg -> option R),
        _CORRADE_CPU_DISPATCHER0 t function features = function (OneTag B)) /\
    (forall (R : Type) (function : TagArg -> option R),
        CORRADE_CPU_DISPATCHER t function [] features
        = function (OneTag B)).
Proof.
  exists match find (contained features) (rev (base_tags t)) with
         | Some B => B
         | None => Scalar
         end.
  split; [apply found_is_highest_contained|].
  assert (H0 : forall (R : Type) (function : TagArg -> option R),
             _CORRADE_CPU_DISPATCHER0 t function features
             = function (OneTag match find (contained features)
                                        (rev (base_tags t)) with
                                | Some B => B
                                | None => Scalar
                                end))
    by (intros R function; rewrite dispatcher0_is_scan;
        apply scan_select_find).
  split; [|split; [exact H0|exact H0]].
  intros R function.
  rewrite dispatcher_base_is_scan, scan_base_find.
  rewrite (find_ext_in _ (contained features)); [reflexivity|].
  intros T HT. apply (test_is_contained t). apply in_rev. exact HT.
Qed.

Lemma Internal_collects {R : Type} (t : Target)
    (function : TagArg -> option R) (features : Features)
    (listed : list Tag) :
  Forall (fun X => truthy (Z.land (Index X) BaseTagMask) = false) listed ->
  forall extra,
    Internal t function features extra listed
    = _CORRADE_CPU_DISPATCHER_IMPLEMENTATION t function features
        (fold_left (fun extra first =>
                      if Features_bool
                           (Features_and features (Features_of_tag first))
                      then Tags_or extra (Index first) else extra)
                   listed extra).
Proof.
  induction 1 as [|first next Hfirst _ IH]; intros extra; [reflexivity|].
  cbn [Internal fold_left tags]. rewrite Hfirst.
  destruct (Features_bool (Features_and features (Features_of_tag first)));
    apply IH.
Qed.

Lemma extra_tag_no_base (t : Target) (X : Tag) :
  In X (extra_tags t) -> truthy (Z.land (Index X) BaseTagMask) = false.
Proof.
  destruct t; cbn [extra_tags In]; intros HX;
    repeat (destruct HX as [<-|HX]; [reflexivity|]); destruct HX.
Qed.

Lemma collected_within (t : Target) (features : Features)
    (listed : list Tag) :
  incl listed (extra_tags t) ->
  forall extra,
    Z.land (_data features) extra = extra ->
    Z.land (_data features)
      (fold_left (fun extra first =>
                    if Features_bool
                         (Features_and features (Features_of_tag first))
                    then Tags_or extra (Index first) else extra)
                 listed extra)
    = fold_left (fun extra first =>
                   if Features_bool
                        (Features_and features (Features_of_tag first))
                   then Tags_or extra (Index first) else extra)
                listed extra.
Proof.
  induction listed as [|first next IH]; intros Hincl extra Hextra;
    [exact Hextra|].
  cbn [fold_left]. apply IH; [intros x Hx; apply Hincl; right; exact Hx|].
  assert (HX : In first (extra_tags t)) by (apply Hincl; left; reflexivity).
  rewrite (extra_test_is_contained t features first HX).
  destruct (contained features first) eqn:E; [|exact Hextra].
  unfold contained, Features_ge in E. cbn [_data Features_of_tag] in E.
  apply Z.eqb_eq in E. unfold Tags_or.
  rewrite Z.land_lor_distr_r, Hextra, E. reflexivity.
Qed.

Lemma scan_extra_within {R : Type} (function : TagArg -> option R)
    (features : Features) (value : Z) (candidates : list Tag) :
  Z.land (_data features) value = value ->
  exists B, In B (Scalar :: candidates) /\
            Features_ge features (Features_of_tags (Z.lor (Index B) value))
            = true /\
            scan_extra function features value candidates
            = function (Combined (Z.lor (Index B) value)).
Proof.
  intros Hvalue. induction candidates as [|C rest IH]; cbn [scan_extra].
  - exists Scalar. split; [left; reflexivity|]. split; [|reflexivity].
    unfold Features_ge. cbn [_data Features_of_tags Index].
    rewrite Z.lor_0_l, Hvalue. apply Z.eqb_refl.
  - destruct (Features_ge features
                (Features_of_tags (Z.lor (Index C) value))) eqn:E.
    + exists C. split; [right; left; reflexivity|].
      split; [exact E|reflexivity].
    + destruct IH as (B & [<-|HB] & Hge & Heq).
      * exists Scalar. split; [left; reflexivity|]. split; assumption.
      * exists B. split; [right; right; exact HB|]. split; assumption.
Qed.

(** Whatever the features, the dispatcher of [_CORRADE_CPU_DISPATCHERn]
    calls [function(CORRADE_CPU_SELECT(B|extra))] with a set the features
    contain: [extra] is the union of the listed extra tags that the features
    have, and [B] a base tag of the target, or [Scalar], with [B|extra]
    inside the features. *)
Theorem dispatcher_selects_what_features_contain {R : Type} (t : Target)
    (function : TagArg -> option R) (listed : list Tag)
    (features : Features) :
  incl listed (extra_tags t) ->
  exists B,
    In B (Scalar :: base_tags t) /\
    Features_ge features
      (Features_of_tags (Z.lor (Index B) (listed_in features listed)))
    = true /\
    _CORRADE_CPU_DISPATCHERn t function listed features
    = function (Combined (Z.lor (Index B) (listed_in features listed))).
Proof.
  intros Hincl. unfold _CORRADE_CPU_DISPATCHERn, listed_in.
  rewrite Internal_collects
    by (apply Forall_forall; intros X HX;
        apply (extra_tag_no_base t), Hincl, HX).
  pose proof (collected_within t features listed Hincl 0
                (Z.land_0_r _)) as Hwithin.
  unfold _CORRADE_CPU_DISPATCHER_IMPLEMENTATION.
  destruct t;
    match goal with
    | |- context [scan_extra _ _ ?v ?l] =>
        destruct (scan_extra_within function features v l Hwithin)
          as (B & HB & Hge & Heq)
    end;
    exists B; (split; [|split; [exact Hge|exact Heq]]);
    cbn [base_tags In] in *; tauto.
Qed.

Lemma dispatcher_selects_what_features_contain_witness :
  exists B,
    In B (Scalar :: base_tags X86) /\
    _CORRADE_CPU_DISPATCHERn X86 (fun a => Some a) [Popcnt; Lzcnt]
      (Features_or (Features_of_tag Sse3) (Features_of_tag Lzcnt))
    = Some (Combined (Z.lor (Index B) (Index Lzcnt))).
Proof.
  destruct (dispatcher_selects_what_features_contain X86 (fun a => Some a)
              [Popcnt; Lzcnt]
              (Features_or (Features_of_tag Sse3) (Features_of_tag Lzcnt)))
    as (B & HB & _ & Heq).
  - intros x [<-|[<-|[]]]; cbn; tauto.
  - exists B. split; [exact HB|exact Heq].
Defined.

Lemma declare_all_In (t : Target) (variants : list TagArg) (f : Z * Z) :
  In f (declare_all t variants) ->
  exists a, In a variants /\ CORRADE_CPU_DECLARE t a = f.
Proof.
  unfold declare_all. intros Hin. apply in_map_iff in Hin as (a & Ha & Hin).
  exists a. split; assumption.
Qed.

(** The overload a [CORRADE_CPU_DISPATCHER] dispatcher with listed extra
    tags returns is one that was declared, every extra tag it is declared
    with is in the features, and its priority is at most the one of the set
    the dispatcher selected: it never returns a variant that uses an extra
    instruction set the machine lacks. *)
Theorem dispatched_overload_has_its_extras (t : Target)
    (variants : list TagArg) (listed : list Tag) (features : Features)
    (V p : Z) :
  incl listed (extra_tags t) ->
  dispatch t variants listed features = Some (V, p) ->
  (exists a, In a variants /\ CORRADE_CPU_DECLARE t a = (V, p)) /\
  Features_le (Features_of_tags (extra_value V)) features = true.
Proof.
  intros Hincl Hd. unfold dispatch in Hd.
  destruct (dispatcher_selects_what_features_contain t
              (call_with_select t (declare_all t variants)) listed features
              Hincl)
    as (B & _ & Hge & Heq).
  rewrite Heq in Hd.
  apply call_with_select_viable in Hd as (P & _ & Hin & Hv).
  split; [exact (declare_all_In t variants (V, p) Hin)|].
  unfold viable in Hv. apply andb_prop in Hv as [Hconv _].
  cbn [converts_to fst] in Hconv.
  set (S := Z.lor (Index B) (listed_in features listed)) in *.
  assert (HE : Z.land (Z.land S V) ExtraTagMask = Z.land V ExtraTagMask).
  { apply orb_prop in Hconv as [Heqb|Hc].
    - apply Z.eqb_eq in Heqb. rewrite Heqb, Z.land_diag. reflexivity.
    - unfold IsTagConversionAllowed in Hc.
      apply andb_prop in Hc as [_ Hc]. apply Z.eqb_eq in Hc. exact Hc. }
  unfold Features_ge in Hge. cbn [_data Features_of_tags] in Hge.
  apply Z.eqb_eq in Hge.
  unfold Features_le, extra_value. cbn [_data Features_of_tags].
  apply Z.eqb_eq. apply Z.bits_inj'. intros n _.
  apply (f_equal (fun z => Z.testbit z n)) in HE, Hge.
  rewrite !Z.land_spec in *.
  destruct (Z.testbit (_data features) n), (Z.testbit S n),
    (Z.testbit V n), (Z.testbit ExtraTagMask n); cbn in *; congruence.
Qed.

Lemma dispatched_overload_has_its_extras_witness :
  Features_le
    (Features_of_tags (extra_value (Z.lor (Index Sse41) (Index Popcnt))))
    (Features_or (Features_of_tag Avx2) (Features_of_tag Popcnt)) = true.
Proof.
  refine (proj2 (dispatched_overload_has_its_extras X86
            [OneTag Scalar; Combined (Z.lor (Index Sse41) (Index Popcnt))]
            [Popcnt]
            (Features_or (Features_of_tag Avx2) (Features_of_tag Popcnt))
            (Z.lor (Index Sse41) (Index Popcnt)) 21 _ _)).
  - intros x [<-|[]]; cbn; tauto.
  - reflexivity.
Defined.

Lemma collected_is_instantiated (features : Features) (listed : list Tag) :
  forall extra,
    In (fold_left (fun extra first =>
                     if Features_bool
                          (Features_and features (Features_of_tag first))
                     then Tags_or extra (Index first) else extra)
                  listed extra)
       (instantiations extra listed).
Proof.
  induction listed as [|first next IH]; intros extra;
    [left; reflexivity|].
  cbn [fold_left instantiations]. apply in_or_app.
  destruct (Features_bool (Features_and features (Features_of_tag first)));
    [left|right]; apply IH.
Qed.

(** A dispatcher that builds returns an overload for every value of the
    features: the call it makes at run time is one of the calls the compiler
    resolved. *)
Theorem built_dispatcher_always_returns (t : Target)
    (variants : list TagArg) (listed : list Tag) (features : Features) :
  dispatcher_builds t variants listed = true ->
  exists overload, dispatch t variants listed features = Some overload.
Proof.
  unfold dispatcher_builds, dispatch. intros Hb.
  apply andb_prop in Hb as [Hlisted Hcalls].
  rewrite forallb_forall in Hlisted, Hcalls.
  unfold _CORRADE_CPU_DISPATCHERn.
  rewrite Internal_collects.
  2:{ apply Forall_forall. intros X HX. apply Hlisted in HX.
      apply negb_true_iff in HX. exact HX. }
  match goal with
  | |- context [_CORRADE_CPU_DISPATCHER_IMPLEMENTATION t ?f features ?v] =>
      destruct (implementation_calls t f features v) as (B & HB & ->);
      pose proof (Hcalls v (collected_is_instantiated features listed 0))
        as Hv
  end.
  rewrite forallb_forall in Hv. specialize (Hv B HB).
  destruct (call_with_select t (declare_all t variants) _) as [overload|];
    [exists overload; reflexivity|discriminate].
Qed.

Lemma built_dispatcher_always_returns_witness :
  exists overload,
    dispatch X86
      [OneTag Scalar; Combined (Z.lor (Index Sse41) (Index Popcnt));
       Combined (Z.lor (Index Avx2) (Z.lor (Index Popcnt) (Index AvxFma)))]
      [Popcnt; AvxFma]
      (Features_or (Features_of_tag Avx) (Features_of_tag AvxFma))
    = Some overload.
Proof.
  apply built_dispatcher_always_returns. reflexivity.
Defined.

(** A base tag among the listed tags stops the build: the [static_assert] of
    [function ## Internal] fails on every path through the listed tags. *)
Theorem listed_base_tag_is_rejected {R : Type} (t : Target)
    (function : TagArg -> option R) (variants : list TagArg)
    (listed : list Tag) (T : Tag) (features : Features) :
  In T listed ->
  truthy (Z.land (Index T) BaseTagMask) = true ->
  _CORRADE_CPU_DISPATCHERn t function listed features = None /\
  dispatcher_builds t variants listed = false.
Proof.
  intros HT Hbase. split.
  - unfold _CORRADE_CPU_DISPATCHERn. generalize 0 as extra.
    induction listed as [|first next IH]; intros extra; [destruct HT|].
    cbn [Internal tags].
    destruct (truthy (Z.land (Index first) BaseTagMask)) eqn:E;
      [reflexivity|].
    destruct HT as [->|HT]; [congruence|].
    destruct (Features_bool (Features_and features (Features_of_tag first)));
      apply (IH HT).
  - unfold dispatcher_builds. apply andb_false_iff. left.
    apply not_true_is_false. intros Hall.
    rewrite forallb_forall in Hall. specialize (Hall T HT).
    cbn [tags] in Hall. rewrite Hbase in Hall. discriminate.
Qed.

Lemma listed_base_tag_is_rejected_witness :
  _CORRADE_CPU_DISPATCHERn X86 (fun a => Some a) [Popcnt; Avx2]
    (Features_of_tag Avx2) = None.
Proof.
  refine (proj1 (listed_base_tag_is_rejected X86 (fun a => Some a) []
                   [Popcnt; Avx2] Avx2 (Features_of_tag Avx2) _ _)).
  - cbn. tauto.
  - reflexivity.
Defined.

(** ** [Default], [compiledFeatures()] and the bound pointer *)





(** In a build without [CORRADE_TARGET_AVX512F], a base dispatcher given
    [compiledFeatures()] calls [function(DefaultBase)], the call a
    compile-time dispatch makes; [Default] is a subset of
    [compiledFeatures()]; and where no detection is compiled in,
    [CORRADE_CPU_DISPATCHED_POINTER] binds the pointer to that same call. *)
Theorem compiled_dispatch_is_DefaultBase (c : BuildConfig) (D : Tag) :
  DefaultBase c false = Some D ->
  (forall (R : Type) (function : Tag -> R),
      CORRADE_CPU_DISPATCHER_BASE (target c) function (compiledFeatures c)
      = function D) /\
  Features_le (Features_of_tags (Z.lor (Index D) (DefaultExtra c)))
              (compiledFeatures c) = true /\
  (forall (R : Type) (function : Tag -> R) (probed : Features),
      runtime_detection_compiled_in c = false ->
      CORRADE_CPU_DISPATCHED_POINTER
        (CORRADE_CPU_DISPATCHER_BASE (target c) function) c probed
      = function D).
Proof.
  intros HD.
  assert (H12 :
    (forall (R : Type) (function : Tag -> R),
        CORRADE_CPU_DISPATCHER_BASE (target c) function (compiledFeatures c)
        = function D) /\
    Features_le (Features_of_tags (Z.lor (Index D) (DefaultExtra c)))
                (compiledFeatures c) = true).
  { destruct c as [t s2 s3 ss3 s41 s42 pop lz avx fma f16 avx2
                     neon nfma nfp16 simd msvc gcc apple android linux api].
    unfold DefaultBase, DefaultExtra, compiledFeatures in *.
    cbn [target CORRADE_TARGET_SSE2 CORRADE_TARGET_SSE3 CORRADE_TARGET_SSSE3
         CORRADE_TARGET_SSE41 CORRADE_TARGET_SSE42 CORRADE_TARGET_POPCNT
         CORRADE_TARGET_LZCNT CORRADE_TARGET_AVX CORRADE_TARGET_AVX_FMA
         CORRADE_TARGET_AVX_F16C CORRADE_TARGET_AVX2 CORRADE_TARGET_NEON
         CORRADE_TARGET_NEON_FMA CORRADE_TARGET_NEON_FP16
         CORRADE_TARGET_SIMD128] in *.
    destruct t; [| | |discriminate].
    - destruct s2, s3, ss3, s41, s42, pop, lz, avx, fma, f16, avx2;
        injection HD as <-; split; reflexivity.
    - destruct neon, nfma, nfp16; injection HD as <-; split; reflexivity.
    - destruct simd; injection HD as <-; split; reflexivity. }
  destruct H12 as [H1 H2]. split; [exact H1|]. split; [exact H2|].
  intros R function probed Hno.
  unfold CORRADE_CPU_DISPATCHED_POINTER, runtimeFeatures.
  rewrite Hno. apply H1.
Qed.

Lemma compiled_dispatch_is_DefaultBase_witness :
  CORRADE_CPU_DISPATCHER_BASE X86 (fun T => T)
    (compiledFeatures x86_sse3_gcc_build)
  = Sse3.
Proof.
  exact (proj1 (compiled_dispatch_is_DefaultBase x86_sse3_gcc_build Sse3
                  eq_refl) Tag (fun T => T)).
Defined.

(** On x86 [compiledFeatures()] never contains [Avx512f], also in a build
    with [CORRADE_TARGET_AVX512F], where [DefaultBase] is [Avx512f]: a base
    dispatcher given [compiledFeatures()] then calls [function] with a lower
    tag than the compile-time dispatch does. *)
Theorem compiledFeatures_has_no_Avx512f (c : BuildConfig) :
  target c = X86 ->
  contained (compiledFeatures c) Avx512f = false /\
  DefaultBase c true = Some Avx512f /\
  (forall (R : Type) (function : Tag -> R),
      exists B, B <> Avx512f /\
                CORRADE_CPU_DISPATCHER_BASE (target c) function
                  (compiledFeatures c) = function B).
Proof.
  intros Ht.
  assert (Hno : contained (compiledFeatures c) Avx512f = false).
  { unfold contained, Features_ge, compiledFeatures.
    cbn [_data Features_of_tag]. rewrite Ht.
    destruct (CORRADE_TARGET_SSE2 c), (CORRADE_TARGET_SSE3 c),
      (CORRADE_TARGET_SSSE3 c), (CORRADE_TARGET_SSE41 c),
      (CORRADE_TARGET_SSE42 c), (CORRADE_TARGET_POPCNT c),
      (CORRADE_TARGET_LZCNT c), (CORRADE_TARGET_AVX c),
      (CORRADE_TARGET_AVX_FMA c), (CORRADE_TARGET_AVX_F16C c),
      (CORRADE_TARGET_AVX2 c); reflexivity. }
  split; [exact Hno|].
  split; [unfold DefaultBase; rewrite Ht; reflexivity|].
  intros R function.
  exists match find (fun B => Features_bool
                          (Features_and (compiledFeatures c)
                                        (Features_of_tag B)))
                (rev (base_tags (target c))) with
         | Some B => B
         | None => Scalar
         end.
  split; [|rewrite dispatcher_base_is_scan; apply scan_base_find].
  destruct (find _ _) as [B|] eqn:Hfind; [|discriminate].
  apply find_some in Hfind as [HB Hp]. intros ->.
  apply in_rev in HB.
  rewrite (test_is_contained (target c) _ Avx512f HB), Hno in Hp.
  discriminate.
Qed.

Lemma compiledFeatures_has_no_Avx512f_witness :
  contained (compiledFeatures x86_sse3_gcc_build) Avx512f = false.
Proof.
  exact (proj1 (compiledFeatures_has_no_Avx512f x86_sse3_gcc_build eq_refl)).
Defined.

(** ** Different combinations that convert never tie *)

(** When [Tags<otherValue>] converts to a different [Tags<value>] the index
    of [value] is strictly lower: two overloads can only tie for a call when
    neither one's combination converts to the other's, and the overload
    declared for exactly the selected combination outranks every other one
    the call can convert to. *)
Theorem conversion_to_another_lowers_priority (t : Target)
    (value otherValue p q : Z) :
  uint_range value -> uint_range otherValue ->
  IsTagConversionAllowed value otherValue = true ->
  priority t value = Some p -> priority t otherValue = Some q ->
  value <> otherValue ->
  p < q.
Proof.
  intros Hv Ho Hconv Hp Hq Hne.
  pose proof (conversion_shape _ _ Hconv) as (Hv1 & Ho1 & Hrank & Hextra).
  apply (priority_uint t value p Hv) in Hp as (_ & Hev & ->).
  apply (priority_uint t otherValue q Ho) in Hq as (_ & Heo & ->).
  pose proof (extra_subset_rank _ _ Hextra) as Hcount.
  pose proof (baseRank_nonneg value) as Hnn.
  destruct (Z.eq_dec (baseRank value) (baseRank otherValue)) as [Hr|Hr];
    [|nia].
  destruct (Z.eq_dec (extraRank value) (extraRank otherValue)) as [He|He];
    [|nia].
  exfalso. apply Hne. apply uint_split; try assumption.
  - apply Z.le_antisymm.
    + apply base_order_rank; assumption.
    + apply base_order_rank; [assumption|assumption|lia].
  - assert (Hback : extra_subset otherValue value).
    { unfold extra_subset in *. apply NoDup_length_incl;
        [apply set_bits_NoDup| |exact Hextra].
      unfold extraRank in He. apply Nat2Z.inj in He. rewrite He. apply le_n. }
    apply extra_subset_spec in Hextra, Hback.
    rewrite <- Hextra. rewrite (Z.land_comm otherValue value). exact Hback.
Qed.

Lemma conversion_to_another_lowers_priority_witness : 35 < 36.
Proof.
  refine (conversion_to_another_lowers_priority X86 (Index Avx2)
            (Z.lor (Index Avx2) (Index Popcnt)) 35 36 _ _ _ _ _ _);
    try reflexivity; unfold uint_range; cbn; lia.
Defined.
